(** * Bank-statement analysis (app.py): column detection, identity
    extraction and the common-names aggregation.

    Python [str] values are modelled as lists of characters whose code
    points lie in the Latin-1 range (0..255); the character classes of
    [re] and the case mapping of [str.lower] are those of Python 3 on that
    range. *)

From Stdlib Require Import ZArith NArith Ascii String List Bool Lia.
From stdpp Require Import gmap strings list fin_maps.

Local Open Scope N_scope.

(** ** Strings *)

Abbreviation str := (list ascii) (only parsing).

(** A literal of the source, as a list of characters. *)
Definition lit (s : string) : str := list_ascii_of_string s.

Definition code (c : ascii) : N := N_of_ascii c.

Definition in_range (lo hi : N) (c : ascii) : bool :=
  (lo <=? code c) && (code c <=? hi).

(** [str.lower] on one character: A-Z and the Latin-1 capitals
    (U+00C0..U+00DE except the multiplication sign U+00D7) move up by 32. *)
Definition lower_char (c : ascii) : ascii :=
  if in_range 65 90 c || (in_range 192 222 c && negb (code c =? 215))
  then ascii_of_N (code c + 32)
  else c.

Definition lower (s : str) : str := map lower_char s.

Fixpoint startswith (p s : str) : bool :=
  match p, s with
  | [], _ => true
  | _ :: _, [] => false
  | c :: p', d :: s' => if Ascii.eqb c d then startswith p' s' else false
  end.

(** [needle in hay] on Python strings. *)
Fixpoint contains (needle hay : str) : bool :=
  startswith needle hay ||
  match hay with
  | [] => false
  | _ :: hay' => contains needle hay'
  end.

(** ** Column detection (app.py, lines 19-24)

    [detect_column(df, keywords)] reads the data frame only through
    [df.columns], the labels in table order. *)

Definition keyword_in (col : str) (keyword : str) : bool :=
  contains (lower keyword) (lower col).

Fixpoint detect_column (columns : list str) (keywords : list str) : option str :=
  match columns with
  | [] => None
  | col :: columns' =>
      if existsb (keyword_in col) keywords then Some col
      else detect_column columns' keywords
  end.

(** ** Regular expressions

    The patterns of the source use literals, character classes, counted,
    greedy and lazy repetition of a class, alternation, the word boundary
    and one capturing group.  The matcher is the backtracking matcher of
    [re], in continuation-passing style: the continuation is the rest of the
    pattern, and an alternative or a shorter repetition is tried when it
    fails. *)

(** Character classes, on the Latin-1 range. *)
Definition is_digit (c : ascii) : bool := in_range 48 57 c.
Definition is_upper (c : ascii) : bool := in_range 65 90 c.
Definition is_lower (c : ascii) : bool := in_range 97 122 c.
Definition is_letter (c : ascii) : bool := is_upper c || is_lower c.
Definition is_letter_or_space (c : ascii) : bool := is_letter c || (code c =? 32).
Definition is_upper_or_digit (c : ascii) : bool := is_upper c || is_digit c.
(** [\s]: Unicode white space. *)
Definition is_space (c : ascii) : bool :=
  in_range 9 13 c || in_range 28 32 c || (code c =? 133) || (code c =? 160).
(** [\w]: Unicode alphanumerics and the underscore. *)
Definition is_word (c : ascii) : bool :=
  is_digit c || is_letter c || (code c =? 95) || (code c =? 170) ||
  in_range 178 179 c || (code c =? 181) || in_range 185 186 c ||
  in_range 188 190 c || in_range 192 214 c || in_range 216 246 c ||
  in_range 248 255 c.
(** [.]: anything but a newline. *)
Definition not_newline (c : ascii) : bool := negb (code c =? 10).
Definition is_char (a : ascii) (c : ascii) : bool := Ascii.eqb a c.

Inductive regex : Type :=
| Eps
| Chr (p : ascii -> bool)
| Seq (r1 r2 : regex)
| Alt (r1 r2 : regex)
| Rep (greedy : bool) (p : ascii -> bool) (lo : nat) (hi : option nat)
| WordBoundary
| Group (r : regex).

Fixpoint seqs (rs : list regex) : regex :=
  match rs with
  | [] => Eps
  | [r] => r
  | r :: rs' => Seq r (seqs rs')
  end.

(** A literal word. *)
Definition Word (s : string) : regex := seqs (map (fun a => Chr (is_char a)) (lit s)).

Definition can_take (hi : option nat) : bool :=
  match hi with
  | None => true
  | Some O => false
  | Some (S _) => true
  end.

Definition dec_hi (hi : option nat) : option nat :=
  match hi with
  | None => None
  | Some h => Some (Nat.pred h)
  end.

(** The text matched between two positions, each given by the reversed
    list of the characters before it. *)
Definition matched (bef bef' : str) : str :=
  rev (take (length bef' - length bef)%nat bef').

Definition word_before (bef : str) : bool :=
  match bef with
  | [] => false
  | c :: _ => is_word c
  end.

Section Matcher.
Context {R : Type}.

(** [p{lo,hi}]: the longest run first. *)
Fixpoint rep_greedy (p : ascii -> bool) (lo : nat) (hi : option nat)
    (bef rest : str) (k : str -> str -> option R) {struct rest} : option R :=
  let stop := match lo with O => k bef rest | S _ => None end in
  match rest with
  | [] => stop
  | c :: rest' =>
      if p c && can_take hi then
        match rep_greedy p (Nat.pred lo) (dec_hi hi) (c :: bef) rest' k with
        | Some res => Some res
        | None => stop
        end
      else stop
  end.

(** [p{lo,hi}?]: the shortest run first. *)
Fixpoint rep_lazy (p : ascii -> bool) (lo : nat) (hi : option nat)
    (bef rest : str) (k : str -> str -> option R) {struct rest} : option R :=
  let more :=
    match rest with
    | [] => None
    | c :: rest' =>
        if p c && can_take hi
        then rep_lazy p (Nat.pred lo) (dec_hi hi) (c :: bef) rest' k
        else None
    end in
  match lo with
  | O => match k bef rest with
         | Some res => Some res
         | None => more
         end
  | S _ => more
  end.

(** [rmatch r bef rest cap k]: match [r] at the position with [bef]
    (reversed) before it and [rest] after it, group 1 holding [cap]. *)
Fixpoint rmatch (r : regex) (bef rest : str) (cap : option str)
    (k : str -> str -> option str -> option R) : option R :=
  match r with
  | Eps => k bef rest cap
  | Chr p =>
      match rest with
      | [] => None
      | c :: rest' => if p c then k (c :: bef) rest' cap else None
      end
  | Seq r1 r2 =>
      rmatch r1 bef rest cap (fun bef' rest' cap' => rmatch r2 bef' rest' cap' k)
  | Alt r1 r2 =>
      match rmatch r1 bef rest cap k with
      | Some res => Some res
      | None => rmatch r2 bef rest cap k
      end
  | Rep greedy p lo hi =>
      (if greedy then rep_greedy else rep_lazy) p lo hi bef rest
        (fun bef' rest' => k bef' rest' cap)
  | WordBoundary =>
      if xorb (word_before bef) (word_before rest) then k bef rest cap else None
  | Group r1 =>
      rmatch r1 bef rest cap
        (fun bef' rest' _ => k bef' rest' (Some (matched bef bef')))
  end.
End Matcher.

(** A match at one position: the position after it and group 1. *)
Definition match_at (r : regex) (bef rest : str) : option (str * str * option str) :=
  rmatch r bef rest None (fun bef' rest' cap => Some (bef', rest', cap)).

Fixpoint has_group (r : regex) : bool :=
  match r with
  | Seq r1 r2 | Alt r1 r2 => has_group r1 || has_group r2
  | Group _ => true
  | _ => false
  end.

(** What [findall] reports for a match: group 1 when the pattern has a
    group, the whole match otherwise. *)
Definition reported (r : regex) (bef bef' : str) (cap : option str) : str :=
  if has_group r then default [] cap else matched bef bef'.

(** [re.findall], for a pattern that matches no empty string: the matches
    from left to right, each search starting where the last match ended.
    [skip] counts the characters still covered by the last match. *)
Fixpoint scan (r : regex) (bef rest : str) (skip : nat) {struct rest} : list str :=
  match skip with
  | S n =>
      match rest with
      | [] => []
      | c :: rest' => scan r (c :: bef) rest' n
      end
  | O =>
      match match_at r bef rest with
      | Some (bef', _, cap) =>
          reported r bef bef' cap ::
          match rest with
          | [] => []
          | c :: rest' => scan r (c :: bef) rest' (length bef' - length bef - 1)%nat
          end
      | None =>
          match rest with
          | [] => []
          | c :: rest' => scan r (c :: bef) rest' O
          end
      end
  end.

Definition findall (r : regex) (text : str) : list str := scan r [] text O.

(** [re.search], as [Series.str.extract] uses it with one group and
    [expand=False]: group 1 of the leftmost match, or nothing (NaN). *)
Fixpoint search_from (r : regex) (bef rest : str) {struct rest} : option str :=
  match match_at r bef rest with
  | Some (_, _, cap) => cap
  | None =>
      match rest with
      | [] => None
      | c :: rest' => search_from r (c :: bef) rest'
      end
  end.

Definition str_extract (r : regex) (text : str) : option str := search_from r [] text.

(** ** Identity extraction (app.py, lines 351-367) *)

Definition TRANSACTION_TYPES : list str :=
  [lit "UPI"; lit "Card"; lit "Cash Withdrawal"; lit "NEFT"; lit "IMPS"; lit "RTGS"].

Definition at_sign : regex := Chr (is_char "@").

(** [(\d{10}@[a-zA-Z]+|[a-zA-Z]+@[a-zA-Z]+)] *)
Definition upi_pattern : regex :=
  Group (Alt (seqs [Rep true is_digit 10 (Some 10%nat); at_sign; Rep true is_letter 1 None])
             (seqs [Rep true is_letter 1 None; at_sign; Rep true is_letter 1 None])).

(** [\b[A-Z][a-z]+\s[A-Z][a-z]+\b] *)
Definition name_pattern : regex :=
  seqs [WordBoundary; Chr is_upper; Rep true is_lower 1 None; Chr is_space;
        Chr is_upper; Rep true is_lower 1 None; WordBoundary].

(** The loop over [TRANSACTION_TYPES] with its [break]. *)
Fixpoint detect_type (types : list str) (text : str) : option str :=
  match types with
  | [] => None
  | ttype :: types' =>
      if contains (lower ttype) (lower text) then Some ttype
      else detect_type types' text
  end.

Definition extract_names_and_upi (text : str) : option str * gset str :=
  let transaction_type := detect_type TRANSACTION_TYPES text in
  let upi_matches := findall upi_pattern text in
  let name_matches := findall name_pattern text in
  (transaction_type, list_to_set (upi_matches ++ name_matches)).

(** ** Frequency analysis: the key of a row (app.py, lines 72-97) *)

(** [([0-9]{10}@[a-z]+|[0-9]{10})] *)
Definition mobile_upi_pattern : regex :=
  Group (Alt (seqs [Rep true is_digit 10 (Some 10%nat); at_sign; Rep true is_lower 1 None])
             (Rep true is_digit 10 (Some 10%nat))).

(** [(?:NEFT|IMPS|RTGS).*?-([A-Za-z]+[A-Za-z ]+)-[A-Z0-9]{11}] *)
Definition neft_name_pattern : regex :=
  seqs [Alt (Word "NEFT") (Alt (Word "IMPS") (Word "RTGS"));
        Rep false not_newline 0 None;
        Chr (is_char "-");
        Group (Seq (Rep true is_letter 1 None) (Rep true is_letter_or_space 1 None));
        Chr (is_char "-");
        Rep true is_upper_or_digit 11 (Some 11%nat)].

(** [str.strip()]: white space removed at both ends. *)
Fixpoint lstrip (s : str) : str :=
  match s with
  | [] => []
  | c :: s' => if is_space c then lstrip s' else s
  end.

Definition strip (s : str) : str := rev (lstrip (rev (lstrip s))).

(** [a.combine_first(b)] on one row: [a] unless it is missing. *)
Definition combine_first {A : Type} (a b : option A) : option A :=
  match a with
  | Some x => Some x
  | None => b
  end.

(** The columns added to one row whose description cell has the string
    form [desc]. *)
Definition extracted_mobile_upi (desc : str) : option str :=
  str_extract mobile_upi_pattern (strip desc).

Definition extracted_names (desc : str) : option str :=
  str_extract neft_name_pattern (strip desc).

Definition combined_key (desc : str) : option str :=
  combine_first (extracted_names desc) (extracted_mobile_upi desc).

(** [df.dropna(subset=['Combined Key'])[["Combined Key", "Source File"]]]
    for the rows of one file, given the string forms of their description
    cells. *)
Fixpoint frequency_rows (filename : str) (descs : list str) : list (str * str) :=
  match descs with
  | [] => []
  | desc :: descs' =>
      match combined_key desc with
      | Some key => (key, filename) :: frequency_rows filename descs'
      | None => frequency_rows filename descs'
      end
  end.

(** ** Common names (app.py, lines 369-490)

    The numeric values of pandas and Python enter the code through four
    operations, which form an interface. *)

Class PyNumeric (amount : Type) := {
  (** [pd.isna(amount)] *)
  isna : amount -> bool;
  (** [amount == 0] *)
  eq_zero : amount -> bool;
  (** [isinstance(amount, (int, float))] *)
  is_int_or_float : amount -> bool;
  (** [sum(amounts)] *)
  py_sum : list amount -> amount
}.

(** A cell is read in two ways: [str(cell)] and
    [pd.to_numeric(cell, errors='coerce')]. *)
Record cell (amount : Type) := Cell {
  cell_str : str;
  cell_num : amount
}.
Arguments Cell {amount}.
Arguments cell_str {amount}.
Arguments cell_num {amount}.

(** The data frame read from one uploaded file: its labels in table order
    and its rows, a row giving the cell under each label. *)
Record DataFrame (amount : Type) := {
  columns : list str;
  rows : list (str -> cell amount)
}.
Arguments columns {amount}.
Arguments rows {amount}.

Record upload (amount : Type) := {
  filename : str;
  df : DataFrame amount
}.
Arguments filename {amount}.
Arguments df {amount}.

(** An entry of [transaction_details[item]]. *)
Record txn (amount : Type) := {
  txn_amount : amount;
  txn_description : str;
  txn_type : option str;
  txn_file : str
}.
Arguments txn_amount {amount}.
Arguments txn_description {amount}.
Arguments txn_type {amount}.
Arguments txn_file {amount}.

(** An entry of [full_transaction_data]. *)
Record full_txn (amount : Type) := {
  ft_name : str;
  ft_type : option str;
  ft_amount : amount;
  ft_description : str;
  ft_file : str
}.
Arguments ft_name {amount}.
Arguments ft_type {amount}.
Arguments ft_amount {amount}.
Arguments ft_description {amount}.
Arguments ft_file {amount}.

(** The three accumulators of [common_names]. *)
Record acc (amount : Type) := {
  name_counts : gmap str nat;
  transaction_details : gmap str (list (txn amount));
  full_transaction_data : list (full_txn amount)
}.
Arguments name_counts {amount}.
Arguments transaction_details {amount}.
Arguments full_transaction_data {amount}.

(** A row of the "Transaction Details" sheet. *)
Record summary (amount : Type) := {
  total_transactions : nat;
  total_amount : amount;
  transaction_types : gset str
}.
Arguments total_transactions {amount}.
Arguments total_amount {amount}.
Arguments transaction_types {amount}.

(** What the request produces: the redirect when no file was uploaded, the
    workbook with the header row only, or the workbook with its three
    sheets. *)
Inductive outcome (amount : Type) :=
| NoFiles
| EmptyWorkbook
| Workbook (common_df : gmap str nat)
           (transaction_df : gmap str (summary amount))
           (full_transaction_df : list (full_txn amount)).
Arguments NoFiles {amount}.
Arguments EmptyWorkbook {amount}.
Arguments Workbook {amount}.

Definition description_columns : list str :=
  [lit "description"; lit "narration"; lit "particulars";
   lit "transaction details"; lit "remarks"].

Definition amount_columns : list str :=
  [lit "amount"; lit "deposits"; lit "withdrawals"; lit "dr / cr"; lit "balance"].

(** [next((col for col in df.columns if col.lower() in names), None)] *)
Fixpoint first_column (cols : list str) (names : list str) : option str :=
  match cols with
  | [] => None
  | col :: cols' =>
      if bool_decide (lower col ∈ names) then Some col
      else first_column cols' names
  end.

Section CommonNames.
Context {amount : Type} `{PyNumeric amount}.

Definition empty_acc : acc amount :=
  {| name_counts := ∅; transaction_details := ∅; full_transaction_data := [] |}.

(** The body of [for item in extracted_data]. *)
Definition add_item (file : str) (text : str) (amt : amount)
    (transaction_type : option str) (st : acc amount) (item : str) : acc amount :=
  {| name_counts :=
       <[item := S (default O (name_counts st !! item))]> (name_counts st);
     transaction_details :=
       <[item := default [] (transaction_details st !! item) ++
                 [{| txn_amount := amt; txn_description := text;
                     txn_type := transaction_type; txn_file := file |}]]>
         (transaction_details st);
     full_transaction_data :=
       full_transaction_data st ++
       [{| ft_name := item; ft_type := transaction_type; ft_amount := amt;
           ft_description := text; ft_file := file |}] |}.

(** The body of [for _, row in df.iterrows()]. *)
Definition process_row (file desc_col amount_col : str) (st : acc amount)
    (row : str -> cell amount) : acc amount :=
  let text := cell_str (row desc_col) in
  let amt := cell_num (row amount_col) in
  if isna amt || eq_zero amt then st
  else
    let '(transaction_type, extracted_data) := extract_names_and_upi text in
    fold_left (add_item file text amt transaction_type) (elements extracted_data) st.

(** The body of [for file in files]. *)
Definition process_file (st : acc amount) (file : upload amount) : acc amount :=
  match first_column (columns (df file)) description_columns with
  | None => st
  | Some desc_col =>
      match first_column (columns (df file)) amount_columns with
      | None => st
      | Some amount_col =>
          fold_left (process_row (filename file) desc_col amount_col)
            (rows (df file)) st
      end
  end.

Definition process_files (files : list (upload amount)) : acc amount :=
  fold_left process_file files empty_acc.

(** [{name: count for name, count in name_counts.items() if count > 1}] *)
Definition common_names_list (st : acc amount) : gmap str nat :=
  filter (fun kv => (1 < kv.2)%nat) (name_counts st).

(** One row of [transaction_data]. *)
Definition summarize (transactions : list (txn amount)) : summary amount :=
  {| total_transactions := length transactions;
     total_amount :=
       py_sum (filter (fun a => is_int_or_float a = true)
                      (map txn_amount transactions));
     transaction_types :=
       list_to_set (omap txn_type transactions) |}.

Definition report (st : acc amount) : outcome amount :=
  if decide (common_names_list st = ∅) then EmptyWorkbook
  else Workbook (common_names_list st)
                (summarize <$> transaction_details st)
                (full_transaction_data st).

Definition common_names (files : list (upload amount)) : outcome amount :=
  match files with
  | [] => NoFiles
  | _ => report (process_files files)
  end.
End CommonNames.

Local Close Scope N_scope.

(** ** What a match is

    [denotes r bef m aft cap cap'] says that the pattern [r] matches the
    text [m], found between [bef] (reversed) and [aft], and takes group 1
    from [cap] to [cap']. *)

Definition within (lo : nat) (hi : option nat) (n : nat) : Prop :=
  lo <= n /\ match hi with Some h => n <= h | None => True end.

Fixpoint denotes (r : regex) (bef m aft : str) (cap cap' : option str) : Prop :=
  match r with
  | Eps => m = [] /\ cap' = cap
  | Chr p => (exists c, m = [c] /\ p c = true) /\ cap' = cap
  | Seq r1 r2 =>
      exists m1 m2 cap1,
        m = m1 ++ m2 /\
        denotes r1 bef m1 (m2 ++ aft) cap cap1 /\
        denotes r2 (rev m1 ++ bef) m2 aft cap1 cap'
  | Alt r1 r2 => denotes r1 bef m aft cap cap' \/ denotes r2 bef m aft cap cap'
  | Rep _ p lo hi =>
      (Forall (fun c => p c = true) m /\ within lo hi (length m)) /\ cap' = cap
  | WordBoundary =>
      (m = [] /\ xorb (word_before bef) (word_before aft) = true) /\ cap' = cap
  | Group r1 => (exists cap1, denotes r1 bef m aft cap cap1) /\ cap' = Some m
  end.

(** ** The shapes of the identity tokens *)

Definition all (p : ascii -> bool) (s : str) : Prop := Forall (fun c => p c = true) s.

(** Ten digits, [@], letters. *)
Definition is_handle (tok : str) : Prop :=
  exists ds ls,
    tok = ds ++ "@"%char :: ls /\ length ds = 10 /\ all is_digit ds /\
    ls <> [] /\ all is_letter ls.

(** Letters, [@], letters. *)
Definition is_word_at_word (tok : str) : Prop :=
  exists xs ls,
    tok = xs ++ "@"%char :: ls /\ xs <> [] /\ all is_letter xs /\
    ls <> [] /\ all is_letter ls.

(** Two capitalised words with one white-space character between them. *)
Definition is_two_word_name (tok : str) : Prop :=
  exists a xs sp b ys,
    tok = a :: xs ++ sp :: b :: ys /\
    is_upper a = true /\ xs <> [] /\ all is_lower xs /\ is_space sp = true /\
    is_upper b = true /\ ys <> [] /\ all is_lower ys.

(** The text after a run of letters: empty, or starting with no letter. *)
Definition letters_end (post : str) : Prop :=
  match post with
  | [] => True
  | c :: _ => is_letter c = false
  end.

(** [re.search(r, text) is not None]: the pattern matches somewhere. *)
Fixpoint has_match_from (r : regex) (bef rest : str) {struct rest} : bool :=
  match match_at r bef rest with
  | Some _ => true
  | None =>
      match rest with
      | [] => false
      | c :: rest' => has_match_from r (c :: bef) rest'
      end
  end.

Definition has_match (r : regex) (text : str) : bool := has_match_from r [] text.

(** The methods in the order in which the specification lists them. *)
Definition spec_method_order : list str :=
  [lit "UPI"; lit "IMPS"; lit "NEFT"; lit "RTGS"; lit "Card"; lit "Cash Withdrawal"].

(** A method keyword occurs in a narration, letter case apart. *)
Definition keyword_occurs (ttype text : str) : Prop :=
  exists pre post, lower text = pre ++ lower ttype ++ post.

(** ** Integer amounts

    An instance of the numeric interface for the examples: an amount is a
    Python [int] (what a row holds for a cell of a column of integers), a
    [numpy.int64] (what [pd.to_numeric] returns for the string ["500"]), or
    NaN (what it returns, as a [numpy.float64], for a string that is no
    number). *)

Inductive pynum : Type :=
| PyInt (z : Z)
| NpInt64 (z : Z)
| NpNaN.

Definition wrap64 (z : Z) : Z := ((z + 2 ^ 63) mod 2 ^ 64 - 2 ^ 63)%Z.

Definition py_add (a b : pynum) : pynum :=
  match a, b with
  | NpNaN, _ | _, NpNaN => NpNaN
  | PyInt x, PyInt y => PyInt (x + y)
  | PyInt x, NpInt64 y | NpInt64 x, PyInt y | NpInt64 x, NpInt64 y =>
      NpInt64 (wrap64 (x + y))
  end.

#[export] Instance pynum_numeric : PyNumeric pynum := {|
  isna a := match a with NpNaN => true | _ => false end;
  eq_zero a := match a with PyInt z | NpInt64 z => (z =? 0)%Z | NpNaN => false end;
  is_int_or_float a := match a with NpInt64 _ => false | _ => true end;
  py_sum amounts := fold_left py_add amounts (PyInt 0)
|}.

(** A row of a table with the columns [Description] and [Amount]: the
    description and the amount cell. *)
Definition two_column_row (desc : string) (amt : cell pynum) (col : str) : cell pynum :=
  if bool_decide (col = lit "Description")
  then {| cell_str := lit desc; cell_num := NpNaN |}
  else amt.

Definition two_columns (data : list (string * cell pynum)) : DataFrame pynum :=
  {| columns := [lit "Description"; lit "Amount"];
     rows := map (fun '(desc, amt) => two_column_row desc amt) data |}.

(** Two statements whose amount cells hold text, a number in the first row
    and a remark in the second.  [read_excel] turns a column of text into
    numbers only when every cell is a number; with the remark the column
    stays text, the rows hold the strings ["500"] and ["pending"], and
    [pd.to_numeric] gives a [numpy.int64] for the first and NaN for the
    second. *)
Definition statement_a : upload pynum :=
  {| filename := lit "a.xlsx";
     df := two_columns [("paid 9876543210@ybl", Cell (lit "500") (NpInt64 500));
                        ("cheque deposit", Cell (lit "pending") NpNaN)] |}.

Definition statement_b : upload pynum :=
  {| filename := lit "b.xlsx";
     df := two_columns [("from 9876543210@ybl", Cell (lit "700") (NpInt64 700));
                        ("cheque deposit", Cell (lit "pending") NpNaN)] |}.

(** Two statements with numeric amount cells. *)
Definition statement_imps : upload pynum :=
  {| filename := lit "A.xlsx";
     df := two_columns [("IMPS-Ramesh Kumar-AB12345678Z", Cell (lit "500") (PyInt 500))] |}.

Definition statement_neft : upload pynum :=
  {| filename := lit "B.xlsx";
     df := two_columns [("NEFT-Ramesh Kumar-AB12345678Z", Cell (lit "1200") (PyInt 1200))] |}.

(** ** The records of an identity *)

(** The entries of [full_transaction_data] under one name, in the order in
    which they were appended. *)
Definition records_of {amount : Type} (name : str) (full : list (full_txn amount)) :
    list (full_txn amount) :=
  filter (fun r => ft_name r = name) full.

(** The entry of [transaction_details] appended with an entry of
    [full_transaction_data]. *)
Definition as_txn {amount : Type} (r : full_txn amount) : txn amount :=
  {| txn_amount := ft_amount r; txn_description := ft_description r;
     txn_type := ft_type r; txn_file := ft_file r |}.

(** The counts and the details agree with the list of records. *)
Definition acc_inv {amount : Type} (st : acc amount) : Prop :=
  forall name,
    name_counts st !! name =
      match records_of name (full_transaction_data st) with
      | [] => None
      | l => Some (length l)
      end /\
    transaction_details st !! name =
      match records_of name (full_transaction_data st) with
      | [] => None
      | l => Some (as_txn <$> l)
      end.

(** A record with a name and an amount that is a number other than 0. *)
Definition valid_record {amount : Type} `{PyNumeric amount} (r : full_txn amount) : Prop :=
  ft_name r <> [] /\ isna (ft_amount r) = false /\ eq_zero (ft_amount r) = false.

(** A label contains one of the keywords, letter case apart. *)
Definition label_matches (keywords : list str) (col : str) : Prop :=
  exists keyword, In keyword keywords /\
    exists pre post, lower col = pre ++ lower keyword ++ post.

(** ** The other requests

    The frame of a file is taken as loaded, with labels that are strings;
    files that do not load and other labels come with the uploaded files
    below.

    [if not col]: a label that is missing or empty counts as not found. *)
Definition found (col : option str) : option str :=
  match col with
  | Some (c :: label) => Some (c :: label)
  | _ => None
  end.

(** *** Frequency analysis: the request (app.py, lines 36-138) *)

Definition frequency_description_keywords : list str :=
  [lit "description"; lit "txn_desc"; lit "narration"; lit "particulars";
   lit "transaction details"; lit "remarks"].

(** The frame appended to [combined_data] for one file that could be read,
    or nothing when the file is skipped: its name is empty, or no
    description column is detected.  The description cells are read through
    [astype(str)].  The columns detected in lines 67-69 are not used. *)
Definition frequency_file {amount : Type} (file : upload amount) : option (list (str * str)) :=
  if bool_decide (filename file = []) then None
  else
    match found (detect_column (columns (df file)) frequency_description_keywords) with
    | None => None
    | Some desc_col =>
        Some (frequency_rows (filename file)
                (map (fun row => cell_str (row desc_col)) (rows (df file))))
    end.

(** [combined_df["Combined Key"].value_counts()] at one key. *)
Definition frequency_count (combined : list (str * str)) (key : str) : nat :=
  length (filter (fun r => r.1 = key) combined).

(** The rows whose key is counted more than once. *)
Definition common_rows (combined : list (str * str)) : list (str * str) :=
  filter (fun r => 1 < frequency_count combined r.1) combined.

(** The index of [common_keys]: the distinct keys counted more than once.
    [value_counts] orders them by count; the order is used only when there
    is one key. *)
Definition common_keys (combined : list (str * str)) : list str :=
  remove_dups (map fst (common_rows combined)).

(** [common_data]: the common rows with their [Frequency] column. *)
Definition common_data (combined : list (str * str)) : list (str * str * nat) :=
  map (fun r => (r.1, r.2, frequency_count combined r.1)) (common_rows combined).

(** What the request ends with: the error message for no files, the one for
    no valid data, the note that no key is common, or the workbook of the
    common rows, with the key named in the message when it is the only
    one. *)
Inductive frequency_outcome : Type :=
| FrequencyNoFiles
| FrequencyNoValidData
| FrequencyNoCommonKeys
| FrequencyCommonKeys (single_common_key : option str) (rows : list (str * str * nat)).

Definition frequency_analysis {amount : Type} (files : list (upload amount)) :
    frequency_outcome :=
  if forallb (fun file => bool_decide (filename file = [])) files
  then FrequencyNoFiles
  else
    match omap frequency_file files with
    | [] => FrequencyNoValidData
    | combined_data =>
        let combined_df := concat combined_data in
        match common_keys combined_df with
        | [] => FrequencyNoCommonKeys
        | [key] => FrequencyCommonKeys (Some key) (common_data combined_df)
        | _ => FrequencyCommonKeys None (common_data combined_df)
        end
    end.

(** *** Categories (app.py, lines 219-279) *)

Definition categorize_description_keywords : list str :=
  [lit "description"; lit "details"; lit "narration"; lit "particulars"].

(** The dictionary [categories], in its order. *)
Definition categories : list (str * list str) :=
  [(lit "UPI", [lit "upi"; lit "paytm"; lit "google pay"; lit "phonepe"]);
   (lit "Card", [lit "card"; lit "debit card"; lit "credit card"]);
   (lit "Withdrawal", [lit "atm withdrawal"; lit "cash withdrawal"]);
   (lit "NEFT", [lit "neft"]);
   (lit "IMPS", [lit "imps"]);
   (lit "RTGS", [lit "rtgs"]);
   (lit "Others", [])].

(** The loop of [assign_category] over the dictionary. *)
Fixpoint first_category (selected_categories : list str) (desc : str)
    (cats : list (str * list str)) : str :=
  match cats with
  | [] => lit "Others"
  | (category, keywords) :: cats' =>
      if bool_decide (category ∈ selected_categories) &&
         existsb (fun keyword => contains keyword desc) keywords
      then category
      else first_category selected_categories desc cats'
  end.

(** [assign_category]: a description is missing ([pd.isna]) or has a
    string form. *)
Definition assign_category (selected_categories : list str) (description : option str) : str :=
  match description with
  | None => lit "Others"
  | Some d => first_category selected_categories (lower d) categories
  end.

(** [df[df["Category"].isin(selected_categories)]]: the rows retained, each
    with its description and its category. *)
Definition categorize_rows (selected_categories : list str)
    (descriptions : list (option str)) : list (option str * str) :=
  filter (fun r => r.2 ∈ selected_categories)
         (map (fun d => (d, assign_category selected_categories d)) descriptions).

(** A table as the categorisation reads it: the labels and, for each row,
    the description found under a label. *)
Record category_table := {
  category_columns : list str;
  category_rows : list (str -> option str)
}.

(** The rows written for one file, or nothing when no description column
    is detected. *)
Definition categorize_file (selected_categories : list str) (t : category_table) :
    option (list (option str * str)) :=
  match found (detect_column (category_columns t) categorize_description_keywords) with
  | None => None
  | Some desc_col =>
      Some (categorize_rows selected_categories
              (map (fun row => row desc_col) (category_rows t)))
  end.

(** *** Ranges and totals (app.py, lines 144-208 and 281-335)

    The operations of pandas on a numeric column: the number 0 of
    [fillna(0)], the sum of a column, and the comparison of a value with a
    bound of the form, which is a float or missing. *)
Class PandasOps (amount bound : Type) := {
  number_zero : amount;
  series_sum : list amount -> amount;
  series_gt : amount -> bound -> bool;
  series_lt : amount -> bound -> bool
}.

Definition range_credit_keywords : list str :=
  [lit "credit"; lit "deposit"; lit "cr"; lit "credit amount"].

Definition range_debit_keywords : list str :=
  [lit "debit"; lit "withdrawal"; lit "dr"; lit "debit amount"].

Definition totals_credit_keywords : list str :=
  [lit "credit"; lit "deposits"; lit "amount"; lit "deposit"].

Definition totals_debit_keywords : list str :=
  [lit "debit"; lit "withdrawals"; lit "amount"; lit "withdrawal"].

(** What the range request does with one file that could be read: the
    error for missing columns, the note that no row is in the range, or the
    rows written (in the file their credit and debit cells hold the numbers
    they were coerced to). *)
Inductive range_result (amount : Type) : Type :=
| RangeColumnsNotFound
| RangeNoTransactions
| RangeFiltered (rows : list (str -> cell amount)).
Arguments RangeColumnsNotFound {amount}.
Arguments RangeNoTransactions {amount}.
Arguments RangeFiltered {amount}.

Section RangesAndTotals.
Context {amount bound : Type} `{PyNumeric amount} `{PandasOps amount bound}.

(** A cell of [pd.to_numeric(df[col], errors="coerce").fillna(0)]. *)
Definition numeric_value (col : str) (row : str -> cell amount) : amount :=
  let a := cell_num (row col) in
  if isna a then number_zero else a.

(** [(df[col] > greater_than) & (df[col] < less_than)] at one row. *)
Definition within_bounds (greater_than less_than : bound) (col : str)
    (row : str -> cell amount) : bool :=
  series_gt (numeric_value col row) greater_than &&
  series_lt (numeric_value col row) less_than.

(** [filtered_df] of [range_analysis], from the two detected columns. *)
Definition range_filter (transaction_type : option str) (greater_than less_than : bound)
    (credit_col debit_col : option str) (table : list (str -> cell amount)) :
    list (str -> cell amount) :=
  let is_type (t : string) := bool_decide (transaction_type = Some (lit t)) in
  let inside (col : str) := within_bounds greater_than less_than col in
  match (if is_type "credit" then credit_col else None) with
  | Some c => List.filter (inside c) table
  | None =>
      match (if is_type "debit" then debit_col else None) with
      | Some d => List.filter (inside d) table
      | None =>
          if is_type "both" then
            match credit_col, debit_col with
            | Some c, Some d => List.filter (fun row => inside c row || inside d row) table
            | Some c, None => List.filter (inside c) table
            | None, Some d => List.filter (inside d) table
            | None, None => table
            end
          else table
      end
  end.

(** The body of the loop of [range_analysis]. *)
Definition range_file (transaction_type : option str) (greater_than less_than : bound)
    (file : upload amount) : range_result amount :=
  let credit_col := found (detect_column (columns (df file)) range_credit_keywords) in
  let debit_col := found (detect_column (columns (df file)) range_debit_keywords) in
  match credit_col, debit_col with
  | None, None => RangeColumnsNotFound
  | _, _ =>
      match range_filter transaction_type greater_than less_than credit_col debit_col
              (rows (df file)) with
      | [] => RangeNoTransactions
      | filtered_df => RangeFiltered filtered_df
      end
  end.

(** The total of a column, or 0 for a column that was not found. *)
Definition column_total (col : option str) (file : upload amount) : amount :=
  match col with
  | Some c => series_sum (map (numeric_value c) (rows (df file)))
  | None => number_zero
  end.

(** The body of the loop of [calculate_totals]: the totals of the credit
    and of the debit column, or nothing when neither is found. *)
Definition totals_file (file : upload amount) : option (amount * amount) :=
  let credit_col := found (detect_column (columns (df file)) totals_credit_keywords) in
  let debit_col := found (detect_column (columns (df file)) totals_debit_keywords) in
  match credit_col, debit_col with
  | None, None => None
  | _, _ => Some (column_total credit_col file, column_total debit_col file)
  end.
End RangesAndTotals.

(** *** Shapes of the keys of the frequency analysis *)

(** Ten digits, alone or followed by [@] and small letters. *)
Definition is_mobile_or_upi (tok : str) : Prop :=
  exists ds ls,
    tok = ds ++ ls /\ length ds = 10 /\ all is_digit ds /\
    (ls = [] \/ exists ls', ls = "@"%char :: ls' /\ ls' <> [] /\ all is_lower ls').

(** A letter followed by letters and spaces, at least one. *)
Definition is_transfer_name (tok : str) : Prop :=
  exists c rest, tok = c :: rest /\ is_letter c = true /\ rest <> [] /\
    all is_letter_or_space rest.

(** A text in which no capital letter A-Z is followed by a small letter:
    no capitalised word starts in it. *)
Fixpoint no_capitalised_word (s : str) : bool :=
  match s with
  | c :: (d :: _) as s' => negb (is_upper c && is_lower d) && no_capitalised_word s'
  | _ => true
  end.

(** The character next to a name is no word character. *)
Definition word_ends (s : str) : Prop :=
  match s with
  | [] => True
  | c :: _ => is_word c = false
  end.

(** The operations of pandas on integer amounts, the bounds being integers
    or missing; a comparison with a missing bound or of NaN is false, and
    the sum of a column is a [numpy.int64], which wraps around. *)
#[export] Instance pynum_pandas : PandasOps pynum (option Z) := {|
  number_zero := PyInt 0;
  series_sum amounts := fold_left py_add amounts (NpInt64 0);
  series_gt a b :=
    match a, b with
    | (PyInt x | NpInt64 x), Some y => (y <? x)%Z
    | _, _ => false
    end;
  series_lt a b :=
    match a, b with
    | (PyInt x | NpInt64 x), Some y => (x <? y)%Z
    | _, _ => false
    end
|}.

(** A row of a statement with the columns [Date], [Description], [Debit]
    and [Credit], the date and the description being text. *)
Definition ledger_row (desc : string) (debit credit : Z) (col : str) : cell pynum :=
  if bool_decide (col = lit "Debit") then Cell [] (PyInt debit)
  else if bool_decide (col = lit "Credit") then Cell [] (PyInt credit)
  else Cell (lit desc) NpNaN.

Definition ledger : upload pynum :=
  {| filename := lit "ledger.xlsx";
     df := {| columns := [lit "Date"; lit "Description"; lit "Debit"; lit "Credit"];
              rows := [ledger_row "rent" 900 0; ledger_row "salary" 0 5000] |} |}.

(** The same rows under the labels [Date], [Debit Amount], [Credit Amount]. *)
Definition amounts_row (debit credit : Z) (col : str) : cell pynum :=
  if bool_decide (col = lit "Debit Amount") then Cell [] (PyInt debit)
  else if bool_decide (col = lit "Credit Amount") then Cell [] (PyInt credit)
  else Cell [] NpNaN.

Definition amounts_ledger : upload pynum :=
  {| filename := lit "amounts.xlsx";
     df := {| columns := [lit "Date"; lit "Debit Amount"; lit "Credit Amount"];
              rows := [amounts_row 900 0; amounts_row 0 5000] |} |}.

(** A statement with a debit column only. *)
Definition debit_only : upload pynum :=
  {| filename := lit "debits.xlsx";
     df := {| columns := [lit "Date"; lit "Debit"];
              rows := [ledger_row "rent" 900 0; ledger_row "fees" 20 0] |} |}.

(** The records that one file adds to [full_transaction_data]. *)
Definition file_records {amount : Type} `{PyNumeric amount} (file : upload amount) :
    list (full_txn amount) :=
  full_transaction_data (process_file empty_acc file).

(** The record appended for one token. *)
Definition record_of {amount : Type} (file text : str) (amt : amount)
    (transaction_type : option str) (item : str) : full_txn amount :=
  {| ft_name := item; ft_type := transaction_type; ft_amount := amt;
     ft_description := text; ft_file := file |}.

(** A narration that names one handle twice, with the amount 250. *)
Definition repeated_handle_row : str -> cell pynum :=
  two_column_row "9876543210@ybl refund to 9876543210@ybl" (Cell (lit "250") (PyInt 250)).

(** *** What the patterns of the frequency analysis find *)

(** A transfer name in a text: one of NEFT, IMPS and RTGS, any characters
    but a line break, a hyphen, the name, a hyphen, and eleven capital
    letters or digits. *)
Definition transfer_name_in (text name : str) : Prop :=
  exists pre method gap ref post,
    text = pre ++ method ++ gap ++ "-"%char :: name ++ "-"%char :: ref ++ post /\
    (method = lit "NEFT" \/ method = lit "IMPS" \/ method = lit "RTGS") /\
    all not_newline gap /\ is_transfer_name name /\
    length ref = 11 /\ all is_upper_or_digit ref.

(** A mobile number or UPI token in a text. *)
Definition mobile_or_upi_in (text tok : str) : Prop :=
  exists pre post, text = pre ++ tok ++ post /\ is_mobile_or_upi tok.

(** ** Uploaded files

    The definitions above take the data frame of a file as loaded, with
    labels that are strings.  An uploaded file may fail to load, and
    [read_excel] gives a header cell that holds a number or a date as a
    label of that type, for which [col.lower()] raises [AttributeError].
    The definitions of this part follow the requests on such files, with
    their [try] blocks; writing a result is taken to succeed. *)

(** A label of a data frame: a string, or a value that is no string. *)
Inductive header_cell : Type :=
| Text (s : str)
| NotText.

Record sheet (amount : Type) := {
  header : list header_cell;
  body : list (str -> cell amount)
}.
Arguments header {amount}.
Arguments body {amount}.

(** An uploaded file: its name, and the data frame that [file.save] and
    [pd.read_excel] give for it, or nothing when one of them raises. *)
Record excel_file (amount : Type) := {
  excel_name : str;
  excel_sheet : option (sheet amount)
}.
Arguments excel_name {amount}.
Arguments excel_sheet {amount}.

(** The end of a block that may raise. *)
Inductive attempt (A : Type) : Type :=
| Returned (a : A)
| Raised.
Arguments Returned {A}.
Arguments Raised {A}.

Definition frequency_credit_keywords : list str :=
  [lit "credit"; lit "deposit"; lit "cr"; lit "credit amount"].

Definition frequency_debit_keywords : list str :=
  [lit "debit"; lit "withdrawal"; lit "dr"; lit "debit amount"].

Definition frequency_amount_keywords : list str :=
  [lit "amount"; lit "transaction amount"; lit "transaction_amount"].

(** What the loop of [frequency_analysis] does with one file: it skips a
    file without a name, reports an error, reports that no description
    column is found, or appends the rows that have a key. *)
Inductive frequency_file_result : Type :=
| FrequencyEmptyName
| FrequencyError
| FrequencyNoDescription
| FrequencyRows (rows : list (str * str)).

Module Request.

(** [detect_column] (lines 19-24): [any] evaluates [col.lower()] for the
    first keyword, if there is one. *)
Fixpoint detect_column (columns : list header_cell) (keywords : list str) :
    attempt (option str) :=
  match columns with
  | [] => Returned None
  | Text col :: columns' =>
      if existsb (keyword_in col) keywords then Returned (Some col)
      else detect_column columns' keywords
  | NotText :: columns' =>
      match keywords with
      | [] => detect_column columns' keywords
      | _ :: _ => Raised
      end
  end.

(** [next((col for col in df.columns if col.lower() in names), None)] *)
Fixpoint first_column (columns : list header_cell) (names : list str) : attempt (option str) :=
  match columns with
  | [] => Returned None
  | Text col :: columns' =>
      if bool_decide (lower col ∈ names) then Returned (Some col)
      else first_column columns' names
  | NotText :: _ => Raised
  end.

(** The body of the loop of [frequency_analysis] (lines 48-101). *)
Definition frequency_file {amount : Type} (file : excel_file amount) :
    frequency_file_result :=
  if bool_decide (excel_name file = []) then FrequencyEmptyName
  else
    match excel_sheet file with
    | None => FrequencyError
    | Some df =>
        match detect_column (header df) frequency_description_keywords with
        | Raised => FrequencyError
        | Returned desc_col =>
            match found desc_col with
            | None => FrequencyNoDescription
            | Some desc_col =>
                match detect_column (header df) frequency_credit_keywords,
                      detect_column (header df) frequency_debit_keywords,
                      detect_column (header df) frequency_amount_keywords with
                | Returned _, Returned _, Returned _ =>
                    FrequencyRows
                      (frequency_rows (excel_name file)
                         (map (fun row => cell_str (row desc_col)) (body df)))
                | _, _, _ => FrequencyError
                end
            end
        end
    end.

(** [combined_data] after the loop. *)
Definition combined_data {amount : Type} (files : list (excel_file amount)) :
    list (list (str * str)) :=
  omap (fun file =>
          match frequency_file file with
          | FrequencyRows rows => Some rows
          | _ => None
          end) files.

(** [frequency_analysis] (lines 36-138). *)
Definition frequency_analysis {amount : Type} (files : list (excel_file amount)) :
    frequency_outcome :=
  if forallb (fun file => bool_decide (excel_name file = [])) files
  then FrequencyNoFiles
  else
    match combined_data files with
    | [] => FrequencyNoValidData
    | frames =>
        let combined_df := concat frames in
        match common_keys combined_df with
        | [] => FrequencyNoCommonKeys
        | [key] => FrequencyCommonKeys (Some key) (common_data combined_df)
        | _ => FrequencyCommonKeys None (common_data combined_df)
        end
    end.

Section RangesAndTotals.
Context {amount number : Type} `{PyNumeric amount} `{PandasOps amount (option number)}.

(** The body of the loop of [range_analysis] (lines 157-206); [Raised] is
    its [except] branch. *)
Definition range_file (transaction_type : option str)
    (greater_than less_than : option number) (file : excel_file amount) :
    attempt (range_result amount) :=
  match excel_sheet file with
  | None => Raised
  | Some df =>
      match detect_column (header df) range_credit_keywords with
      | Raised => Raised
      | Returned credit_col =>
          match detect_column (header df) range_debit_keywords with
          | Raised => Raised
          | Returned debit_col =>
              Returned
                match found credit_col, found debit_col with
                | None, None => RangeColumnsNotFound
                | credit_col, debit_col =>
                    match range_filter transaction_type greater_than less_than
                            credit_col debit_col (body df) with
                    | [] => RangeNoTransactions
                    | filtered_df => RangeFiltered filtered_df
                    end
                end
          end
      end
  end.

(** [range_analysis] (lines 145-208): nothing is done without files or
    without a bound; otherwise each file has its result. *)
Definition range_analysis (transaction_type : option str)
    (greater_than less_than : option number) (files : list (excel_file amount)) :
    option (list (attempt (range_result amount))) :=
  match files, greater_than, less_than with
  | [], _, _ | _, None, None => None
  | _, _, _ => Some (map (range_file transaction_type greater_than less_than) files)
  end.

Definition column_total (col : option str) (df : sheet amount) : amount :=
  match col with
  | Some c => series_sum (map (numeric_value c) (body df))
  | None => number_zero
  end.

(** The body of the loop of [calculate_totals] (lines 291-333). *)
Definition totals_file (file : excel_file amount) : attempt (option (amount * amount)) :=
  match excel_sheet file with
  | None => Raised
  | Some df =>
      match detect_column (header df) totals_credit_keywords with
      | Raised => Raised
      | Returned credit_col =>
          match detect_column (header df) totals_debit_keywords with
          | Raised => Raised
          | Returned debit_col =>
              Returned
                match found credit_col, found debit_col with
                | None, None => None
                | credit_col, debit_col =>
                    Some (column_total credit_col df, column_total debit_col df)
                end
          end
      end
  end.

End RangesAndTotals.

Section CommonNames.
Context {amount : Type} `{PyNumeric amount}.

(** The body of [for file in files] of [common_names] (lines 384-445). *)
Definition process_file (st : acc amount) (file : excel_file amount) :
    attempt (acc amount) :=
  match excel_sheet file with
  | None => Raised
  | Some df =>
      match first_column (header df) description_columns with
      | Raised => Raised
      | Returned None => Returned st
      | Returned (Some desc_col) =>
          match first_column (header df) amount_columns with
          | Raised => Raised
          | Returned None => Returned st
          | Returned (Some amount_col) =>
              Returned (fold_left (process_row (excel_name file) desc_col amount_col)
                          (body df) st)
          end
      end
  end.

(** The loop inside the [try] block: an exception ends it. *)
Fixpoint process_files (st : acc amount) (files : list (excel_file amount)) :
    attempt (acc amount) :=
  match files with
  | [] => Returned st
  | file :: files' =>
      match process_file st file with
      | Raised => Raised
      | Returned st' => process_files st' files'
      end
  end.

(** [common_names] (lines 370-490): [Raised] is the [except] branch, which
    ends the request with an error message and no workbook. *)
Definition common_names (files : list (excel_file amount)) : attempt (outcome amount) :=
  match files with
  | [] => Returned NoFiles
  | _ =>
      match process_files empty_acc files with
      | Raised => Raised
      | Returned st => Returned (report st)
      end
  end.
End CommonNames.

End Request.

(** The string labels of a header. *)
Definition texts (columns : list header_cell) : list str :=
  omap (fun l => match l with Text s => Some s | NotText => None end) columns.

(** A file that loads, with the string labels of its header. *)
Definition as_upload {amount : Type} (file : excel_file amount) : option (upload amount) :=
  match excel_sheet file with
  | None => None
  | Some table =>
      Some {| filename := excel_name file;
              df := {| columns := texts (header table); rows := body table |} |}
  end.

(** A label is a string that does not have the property [P]. *)
Definition text_without (P : str -> Prop) (l : header_cell) : Prop :=
  exists c, l = Text c /\ ~ P c.

(** [col] is the first label with the property [P], all labels before it
    being strings. *)
Definition finds (P : str -> Prop) (columns : list header_cell) (col : str) : Prop :=
  exists before after,
    columns = before ++ Text col :: after /\ P col /\ Forall (text_without P) before.

(** A label that is no string comes before any label with the property
    [P]. *)
Definition stops (P : str -> Prop) (columns : list header_cell) : Prop :=
  exists before after,
    columns = before ++ NotText :: after /\ Forall (text_without P) before.

(** The scan that both searches perform: the first string label that
    passes a test, a label that is no string ending it. *)
Fixpoint first_text (p : str -> bool) (columns : list header_cell) : attempt (option str) :=
  match columns with
  | [] => Returned None
  | Text col :: columns' => if p col then Returned (Some col) else first_text p columns'
  | NotText :: _ => Raised
  end.

(** A file from which the frequency request takes rows: it has a name, it
    loads, a description column is found, and none of the three further
    detections meets a label that is no string. *)
Definition gives_rows {amount : Type} (file : excel_file amount) : Prop :=
  excel_name file <> [] /\
  exists df, excel_sheet file = Some df /\
    (exists desc_col,
       finds (label_matches frequency_description_keywords) (header df) desc_col) /\
    ~ stops (label_matches frequency_credit_keywords) (header df) /\
    ~ stops (label_matches frequency_debit_keywords) (header df) /\
    ~ stops (label_matches frequency_amount_keywords) (header df).

(** The lower-cased label is one of the names. *)
Definition exact_name (names : list str) (col : str) : Prop := In (lower col) names.

(** A file on which the common-names request raises: it does not load, or
    a label that is no string comes before the description column, or,
    that column being found, before the amount column. *)
Definition aborts {amount : Type} (file : excel_file amount) : Prop :=
  excel_sheet file = None \/
  exists df, excel_sheet file = Some df /\
    (stops (exact_name description_columns) (header df) \/
     ((exists desc_col, finds (exact_name description_columns) (header df) desc_col) /\
      stops (exact_name amount_columns) (header df))).

(** A frame as loaded, seen as the file it came from. *)
Definition loaded {amount : Type} (file : upload amount) : excel_file amount :=
  {| excel_name := filename file;
     excel_sheet := Some {| header := map Text (columns (df file));
                            body := rows (df file) |} |}.

(** A statement whose header holds the year 2024 in its last cell. *)
Definition statement_with_year : excel_file pynum :=
  {| excel_name := lit "year.xlsx";
     excel_sheet :=
       Some {| header := [Text (lit "Txn_Desc"); NotText];
               body := [two_column_row "paid 9876543210@ybl" (Cell (lit "500") (PyInt 500))] |} |}.

(** A statement whose header holds a date in its first cell. *)
Definition statement_with_date : excel_file pynum :=
  {| excel_name := lit "date.xlsx";
     excel_sheet :=
       Some {| header := [NotText; Text (lit "Description"); Text (lit "Amount")];
               body := [two_column_row "paid 9876543210@ybl" (Cell (lit "500") (PyInt 500))] |} |}.

(** A statement with the labels [Transaction Description] and
    [Txn Amount]. *)
Definition statement_long_labels : upload pynum :=
  {| filename := lit "long.xlsx";
     df := {| columns := [lit "Transaction Description"; lit "Txn Amount"];
              rows := [fun col =>
                         if bool_decide (col = lit "Transaction Description")
                         then Cell (lit "paid 9876543210@ybl") NpNaN
                         else Cell (lit "500") (PyInt 500)] |} |}.

(** ** Facts about strings *)

Lemma startswith_spec (p s : str) :
  startswith p s = true <-> exists post, s = p ++ post.
Proof.
  revert s. induction p as [|c p IH]; intros s; simpl.
  - split; [intros _; exists s; reflexivity | reflexivity].
  - destruct s as [|d s].
    + split; [discriminate | intros [post H]; discriminate].
    + destruct (Ascii.eqb_spec c d) as [->|Hne].
      * rewrite IH. split; intros [post H]; exists post.
        -- now rewrite H.
        -- now injection H.
      * split; [discriminate | intros [post H]; injection H; congruence].
Qed.

Lemma contains_spec (needle hay : str) :
  contains needle hay = true <-> exists pre post, hay = pre ++ needle ++ post.
Proof.
  induction hay as [|d hay IH]; simpl.
  - rewrite orb_false_r, startswith_spec. split.
    + intros [post H]. exists [], post. exact H.
    + intros [pre [post H]]. destruct pre; simpl in H.
      * exists post. exact H.
      * discriminate.
  - rewrite orb_true_iff, startswith_spec, IH. split.
    + intros [[post H] | [pre [post H]]].
      * exists [], post. exact H.
      * exists (d :: pre), post. simpl. now rewrite H.
    + intros [pre [post H]]. destruct pre as [|e pre]; simpl in H.
      * left. exists post. exact H.
      * right. exists pre, post. now injection H.
Qed.

(** ** Column detection: first match in table order *)

Lemma existsb_keyword_in (keywords : list str) (col : str) :
  existsb (keyword_in col) keywords = true <-> label_matches keywords col.
Proof.
  unfold label_matches, keyword_in. rewrite existsb_exists.
  split; intros [k [Hin H]]; exists k; (split; [exact Hin|]);
    now apply contains_spec.
Qed.

(** C6. The Column Resolver scans the labels in table order and returns the
    first label that contains some keyword as a case-insensitive substring,
    and none exactly when no label does; being a function of the labels and
    the keywords alone, equal inputs give equal results. *)
Theorem detect_column_first_match (columns keywords : list str) :
  (forall col, detect_column columns keywords = Some col <->
     exists before after,
       columns = before ++ col :: after /\
       label_matches keywords col /\
       forall c, In c before -> ~ label_matches keywords c) /\
  (detect_column columns keywords = None <->
     forall c, In c columns -> ~ label_matches keywords c).
Proof.
  induction columns as [|c0 columns [IHs IHn]]; simpl.
  - split.
    + intros col. split; [discriminate|].
      intros [before [after [H _]]]. destruct before; discriminate.
    + split; [intros _ c []|reflexivity].
  - destruct (existsb (keyword_in c0) keywords) eqn:E.
    + apply existsb_keyword_in in E. split.
      * intros col. split.
        -- intros [= <-]. exists [], columns.
           repeat split; auto; intros c [].
        -- intros [before [after [Hc [Hm Hb]]]].
           destruct before as [|b before]; simpl in Hc.
           ++ now inversion Hc.
           ++ inversion Hc; subst. exfalso. apply (Hb b); simpl; auto.
      * split; [discriminate|]. intros H. exfalso. apply (H c0); auto.
    + assert (Hn : ~ label_matches keywords c0).
      { intros H. apply existsb_keyword_in in H. congruence. }
      split.
      * intros col. rewrite IHs. split.
        -- intros [before [after [Hc [Hm Hb]]]].
           exists (c0 :: before), after. repeat split.
           ++ simpl. now rewrite Hc.
           ++ exact Hm.
           ++ intros c [<-|Hin]; auto.
        -- intros [before [after [Hc [Hm Hb]]]].
           destruct before as [|b before]; simpl in Hc.
           ++ inversion Hc; subst. contradiction.
           ++ inversion Hc; subst. exists before, after.
              repeat split; auto. intros c Hin. apply Hb. simpl. auto.
      * rewrite IHn. split.
        -- intros H c [<-|Hin]; auto.
        -- intros H c Hin. apply H. auto.
Qed.

(** The columns [Narration], [Credit Amount] with the description keywords. *)
Example detect_column_narration :
  detect_column [lit "Narration"; lit "Credit Amount"]
    [lit "description"; lit "txn_desc"; lit "narration"; lit "particulars";
     lit "transaction details"; lit "remarks"] = Some (lit "Narration").
Proof. vm_compute. reflexivity. Qed.

Lemma rev_cons_app (c : ascii) (m bef : str) :
  rev (c :: m) ++ bef = rev m ++ c :: bef.
Proof. simpl. now rewrite <- app_assoc. Qed.

Lemma matched_app (m bef : str) : matched bef (rev m ++ bef) = m.
Proof.
  unfold matched. rewrite length_app, length_rev.
  replace (length m + length bef - length bef) with (length (rev m))
    by (rewrite length_rev; lia).
  rewrite take_app_length. apply rev_involutive.
Qed.

Section MatcherSound.
Context {R : Type}.

Lemma rep_greedy_sound (p : ascii -> bool) (rest : str) :
  forall lo hi bef (k : str -> str -> option R) res,
    rep_greedy p lo hi bef rest k = Some res ->
    exists m aft,
      rest = m ++ aft /\ Forall (fun c => p c = true) m /\
      within lo hi (length m) /\ k (rev m ++ bef) aft = Some res.
Proof.
  induction rest as [|c rest IH]; intros lo hi bef k res; simpl.
  - destruct lo; [|discriminate]. intros Hk.
    exists [], []. repeat split; auto. destruct hi; simpl; lia.
  - assert (Hstop : match lo with 0 => k bef (c :: rest) | S _ => None end = Some res ->
              exists m aft, c :: rest = m ++ aft /\ Forall (fun c => p c = true) m /\
                within lo hi (length m) /\ k (rev m ++ bef) aft = Some res).
    { destruct lo; [|discriminate]. intros Hk.
      exists [], (c :: rest). repeat split; auto. destruct hi; simpl; lia. }
    destruct (p c) eqn:Hp; simpl; [|exact Hstop].
    destruct (can_take hi) eqn:Hc; [|exact Hstop].
    destruct (rep_greedy p (Nat.pred lo) (dec_hi hi) (c :: bef) rest k) eqn:E;
      [|exact Hstop].
    intros [= <-]. apply IH in E as (m & aft & -> & Hall & [Hlo Hhi] & Hk).
    exists (c :: m), aft. rewrite rev_cons_app. repeat split; auto.
    + simpl. lia.
    + destruct hi as [[|h]|]; simpl in *; try discriminate; lia.
Qed.

Lemma rep_lazy_sound (p : ascii -> bool) (rest : str) :
  forall lo hi bef (k : str -> str -> option R) res,
    rep_lazy p lo hi bef rest k = Some res ->
    exists m aft,
      rest = m ++ aft /\ Forall (fun c => p c = true) m /\
      within lo hi (length m) /\ k (rev m ++ bef) aft = Some res.
Proof.
  induction rest as [|c rest IH]; intros lo hi bef k res; simpl.
  - destruct lo; [|discriminate]. destruct (k bef []) eqn:Hk; [|discriminate].
    intros [= <-]. exists [], []. repeat split; auto. destruct hi; simpl; lia.
  - assert (Hmore : (if p c && can_take hi
                     then rep_lazy p (Nat.pred lo) (dec_hi hi) (c :: bef) rest k
                     else None) = Some res ->
              exists m aft, c :: rest = m ++ aft /\ Forall (fun c => p c = true) m /\
                within lo hi (length m) /\ k (rev m ++ bef) aft = Some res).
    { destruct (p c) eqn:Hp; simpl; [|discriminate].
      destruct (can_take hi) eqn:Hc; [|discriminate].
      intros E. apply IH in E as (m & aft & -> & Hall & [Hlo Hhi] & Hk).
      exists (c :: m), aft. rewrite rev_cons_app. repeat split; auto.
      - simpl. lia.
      - destruct hi as [[|h]|]; simpl in *; try discriminate; lia. }
    destruct lo; [|exact Hmore].
    destruct (k bef (c :: rest)) eqn:Hk; [|exact Hmore].
    intros [= <-]. exists [], (c :: rest). repeat split; auto.
    destruct hi; simpl; lia.
Qed.

(** The matcher only reports matches. *)
Lemma rmatch_sound (r : regex) :
  forall bef rest cap (k : str -> str -> option str -> option R) res,
    rmatch r bef rest cap k = Some res ->
    exists m aft cap',
      rest = m ++ aft /\ denotes r bef m aft cap cap' /\
      k (rev m ++ bef) aft cap' = Some res.
Proof.
  induction r as [|p|r1 IH1 r2 IH2|r1 IH1 r2 IH2|g p lo hi| |r1 IH1];
    intros bef rest cap k res; simpl.
  - intros Hk. exists [], rest, cap. auto.
  - destruct rest as [|c rest]; [discriminate|].
    destruct (p c) eqn:Hp; [|discriminate]. intros Hk.
    exists [c], rest, cap. repeat split; eauto.
  - intros E. apply IH1 in E as (m1 & aft1 & cap1 & -> & D1 & E).
    apply IH2 in E as (m2 & aft & cap' & -> & D2 & Hk).
    exists (m1 ++ m2), aft, cap'. rewrite rev_app_distr, <- !app_assoc.
    repeat split; auto. exists m1, m2, cap1. auto.
  - destruct (rmatch r1 bef rest cap k) eqn:E.
    + intros [= <-]. apply IH1 in E as (m & aft & cap' & -> & D & Hk).
      exists m, aft, cap'. auto.
    + intros E2. apply IH2 in E2 as (m & aft & cap' & -> & D & Hk).
      exists m, aft, cap'. auto.
  - intros E.
    assert (exists m aft, rest = m ++ aft /\ Forall (fun c => p c = true) m /\
              within lo hi (length m) /\ k (rev m ++ bef) aft cap = Some res)
      as (m & aft & -> & Hall & Hw & Hk).
    { destruct g; [apply rep_greedy_sound in E | apply rep_lazy_sound in E];
        exact E. }
    exists m, aft, cap. auto.
  - destruct (xorb (word_before bef) (word_before rest)) eqn:Hx; [|discriminate].
    intros Hk. exists [], rest, cap. auto.
  - intros E. apply IH1 in E as (m & aft & cap1 & -> & D & Hk).
    rewrite matched_app in Hk. exists m, aft, (Some m). repeat split; eauto.
Qed.
End MatcherSound.

Lemma match_at_sound (r : regex) (bef rest bef' rest' : str) (cap : option str) :
  match_at r bef rest = Some (bef', rest', cap) ->
  exists m, rest = m ++ rest' /\ bef' = rev m ++ bef /\ denotes r bef m rest' None cap.
Proof.
  unfold match_at. intros E.
  apply rmatch_sound in E as (m & aft & cap' & -> & D & [= <- <- <-]).
  exists m. auto.
Qed.

(** Every string [findall] reports comes from a substring of the text that
    the pattern matches. *)
Lemma scan_sound (r : regex) (rest : str) :
  forall bef skip tok,
    In tok (scan r bef rest skip) ->
    exists pre m aft cap,
      rev bef ++ rest = pre ++ m ++ aft /\
      denotes r (rev pre) m aft None cap /\
      tok = (if has_group r then default [] cap else m).
Proof.
  induction rest as [|c rest IH]; intros bef skip tok.
  - destruct skip; simpl; [|intros []].
    destruct (match_at r bef []) as [[[bef' rest'] cap]|] eqn:E; [|intros []].
    intros [<-|[]]. apply match_at_sound in E as (m & Hr & -> & D).
    exists (rev bef), m, rest', cap. rewrite rev_involutive, <- Hr.
    unfold reported. rewrite matched_app. auto.
  - assert (Hnext : forall skip', In tok (scan r (c :: bef) rest skip') ->
              exists pre m aft cap,
                rev bef ++ c :: rest = pre ++ m ++ aft /\
                denotes r (rev pre) m aft None cap /\
                tok = (if has_group r then default [] cap else m)).
    { intros skip' Hin. apply IH in Hin as (pre & m & aft & cap & Heq & D & Ht).
      exists pre, m, aft, cap. simpl in Heq. rewrite <- app_assoc in Heq. auto. }
    destruct skip; simpl; [|apply Hnext].
    destruct (match_at r bef (c :: rest)) as [[[bef' rest'] cap]|] eqn:E;
      [|apply Hnext].
    intros [<-|Hin]; [|eapply Hnext; exact Hin].
    apply match_at_sound in E as (m & Hr & -> & D).
    exists (rev bef), m, rest', cap. rewrite rev_involutive, <- Hr.
    unfold reported. rewrite matched_app. auto.
Qed.

Lemma findall_sound (r : regex) (text tok : str) :
  In tok (findall r text) ->
  exists pre m aft cap,
    text = pre ++ m ++ aft /\
    denotes r (rev pre) m aft None cap /\
    tok = (if has_group r then default [] cap else m).
Proof. unfold findall. intros Hin. apply scan_sound in Hin. exact Hin. Qed.

Lemma within_1_nonempty (hi : option nat) (m : str) :
  within 1 hi (length m) -> m <> [].
Proof. intros [Hlo _] ->. simpl in Hlo. lia. Qed.

Lemma is_char_eq (a c : ascii) : is_char a c = true -> c = a.
Proof. unfold is_char. intros E. symmetry. now apply Ascii.eqb_eq. Qed.

Lemma upi_pattern_shape (bef m aft : str) (cap : option str) :
  denotes upi_pattern bef m aft None cap ->
  cap = Some m /\ (is_handle m \/ is_word_at_word m).
Proof.
  unfold upi_pattern, at_sign. cbn [denotes seqs].
  intros [[cap1 [D|D]] ->]; (split; [reflexivity|]);
    destruct D as (m1 & m23 & c1 & -> & [[H1 W1] _] & D);
    destruct D as (m2 & m3 & c2 & -> & [(c & -> & Hc) _] & [[H3 W3] _]);
    apply is_char_eq in Hc as ->.
  - left. exists m1, m3. repeat split; auto.
    + destruct W1 as [Hlo Hhi]. lia.
    + eapply within_1_nonempty; eauto.
  - right. exists m1, m3. repeat split; auto;
      eapply within_1_nonempty; eauto.
Qed.

Lemma name_pattern_shape (bef m aft : str) (cap : option str) :
  denotes name_pattern bef m aft None cap -> is_two_word_name m.
Proof.
  unfold name_pattern. cbn [denotes seqs].
  intros (m0 & r0 & c0 & -> & [[-> _] _] & D).
  destruct D as (m1 & r1 & c1 & -> & [(a & -> & Ha) _] & D).
  destruct D as (xs & r2 & c2 & -> & [[Hxs Wxs] _] & D).
  destruct D as (m3 & r3 & c3 & -> & [(sp & -> & Hsp) _] & D).
  destruct D as (m4 & r4 & c4 & -> & [(b & -> & Hb) _] & D).
  destruct D as (ys & r5 & c5 & -> & [[Hys Wys] _] & [[-> _] _]).
  exists a, xs, sp, b, ys. rewrite app_nil_r. simpl.
  repeat split; auto; eapply within_1_nonempty; eauto.
Qed.

Lemma upi_matches_shape (text tok : str) :
  In tok (findall upi_pattern text) -> is_handle tok \/ is_word_at_word tok.
Proof.
  intros Hin. apply findall_sound in Hin as (pre & m & aft & cap & _ & D & ->).
  apply upi_pattern_shape in D as [-> Hm]. exact Hm.
Qed.

Lemma name_matches_shape (text tok : str) :
  In tok (findall name_pattern text) -> is_two_word_name tok.
Proof.
  intros Hin. apply findall_sound in Hin as (pre & m & aft & cap & _ & D & ->).
  apply name_pattern_shape in D. exact D.
Qed.

(** The identity set of a narration holds exactly the reported matches. *)
Lemma identities_elem (text tok : str) :
  tok ∈ (extract_names_and_upi text).2 <->
  In tok (findall upi_pattern text) \/ In tok (findall name_pattern text).
Proof.
  unfold extract_names_and_upi. cbn [snd].
  rewrite elem_of_list_to_set, elem_of_app, !list_elem_of_In. reflexivity.
Qed.

Lemma identity_shape (text tok : str) :
  tok ∈ (extract_names_and_upi text).2 ->
  is_handle tok \/ is_word_at_word tok \/ is_two_word_name tok.
Proof.
  rewrite identities_elem. intros [Hin|Hin].
  - apply upi_matches_shape in Hin. tauto.
  - apply name_matches_shape in Hin. tauto.
Qed.

(** ** Finding a handle *)

Lemma digit_not_letter (c : ascii) : is_digit c = true -> is_letter c = false.
Proof.
  destruct c as [[] [] [] [] [] [] [] []]; vm_compute; congruence.
Qed.

Lemma at_not_digit : is_digit "@" = false.
Proof. reflexivity. Qed.

Lemma at_not_letter : is_letter "@" = false.
Proof. reflexivity. Qed.

Section GreedyRun.
Context {R : Type}.

(** A greedy repetition that can take the whole run [m] and no more
    hands [m] to the rest of the pattern first. *)
Lemma rep_greedy_run (p : ascii -> bool) (m : str) :
  forall lo hi bef aft (k : str -> str -> option R) res,
    all p m -> within lo hi (length m) ->
    (hi = Some (length m) \/
     match aft with [] => True | c :: _ => p c = false end) ->
    k (rev m ++ bef) aft = Some res ->
    rep_greedy p lo hi bef (m ++ aft) k = Some res.
Proof.
  induction m as [|c m IH]; intros lo hi bef aft k res Hall [Hlo Hhi] Hend Hk.
  - simpl in *. assert (lo = 0) as -> by lia.
    destruct aft as [|a aft]; simpl; [exact Hk|].
    destruct Hend as [->|Hp]; simpl.
    + rewrite andb_false_r. exact Hk.
    + rewrite Hp. exact Hk.
  - inversion Hall as [|? ? Hc Hm]; subst. simpl in *.
    rewrite Hc. simpl.
    assert (Hcan : can_take hi = true).
    { destruct hi as [[|h]|]; simpl; auto; lia. }
    rewrite Hcan.
    rewrite (IH (Nat.pred lo) (dec_hi hi) (c :: bef) aft k res); auto.
    + split; [lia|]. destruct hi as [h|]; simpl; auto; lia.
    + destruct Hend as [->|Hp]; [left|right; exact Hp]. reflexivity.
    + rewrite <- app_assoc in Hk. exact Hk.
Qed.
End GreedyRun.

(** At the start of a handle the pattern matches the handle. *)
Lemma match_at_handle (bef ds ls post : str) :
  length ds = 10 -> all is_digit ds -> ls <> [] -> all is_letter ls ->
  letters_end post ->
  match_at upi_pattern bef (ds ++ "@"%char :: ls ++ post) =
  Some (rev (ds ++ "@"%char :: ls) ++ bef, post, Some (ds ++ "@"%char :: ls)).
Proof.
  intros Hlen Hds Hne Hls Hpost.
  unfold match_at, upi_pattern, at_sign. cbn [rmatch seqs].
  erewrite rep_greedy_run; [reflexivity | exact Hds | | left; now rewrite Hlen |].
  - rewrite Hlen. split; lia.
  - cbn. erewrite rep_greedy_run; [reflexivity | exact Hls | | right; exact Hpost |].
    + split; [|exact I]. destruct ls; [contradiction|simpl; lia].
    + assert (Hrev : rev ls ++ "@"%char :: rev ds ++ bef =
                     rev (ds ++ "@"%char :: ls) ++ bef).
      { rewrite rev_app_distr. simpl. now rewrite <- !app_assoc. }
      rewrite Hrev, matched_app. reflexivity.
Qed.

Lemma app_eq_split (A : Type) (a b c d : list A) :
  a ++ b = c ++ d -> length c <= length a ->
  exists e, a = c ++ e /\ d = e ++ b.
Proof.
  revert c. induction a as [|x a IH]; intros c Heq Hlen.
  - destruct c; simpl in *; [|lia]. exists []. auto.
  - destruct c as [|y c]; simpl in *.
    + exists (x :: a). auto.
    + injection Heq as -> Heq. apply IH in Heq as (e & -> & ->); [|lia].
      exists e. auto.
Qed.

(** The character at an index of a text that starts with [cur]. *)
Lemma lookup_after (cur ds rest : str) (j : nat) :
  j < length ds -> (cur ++ ds ++ rest) !! (length cur + j) = ds !! j.
Proof.
  intros Hj. rewrite lookup_app_r by lia.
  replace (length cur + j - length cur) with j by lia.
  now rewrite lookup_app_l.
Qed.

Lemma all_lookup (p : ascii -> bool) (s : str) (i : nat) (c : ascii) :
  all p s -> s !! i = Some c -> p c = true.
Proof.
  unfold all. rewrite Forall_forall. intros Hall Hi. apply Hall.
  eapply list_elem_of_lookup_2. exact Hi.
Qed.

(** A match of the pattern that starts before a handle ends before it. *)
Lemma match_before_handle (cur ds rest m rest' : str) :
  cur <> [] -> length ds = 10 -> all is_digit ds ->
  cur ++ ds ++ rest = m ++ rest' ->
  is_handle m \/ is_word_at_word m ->
  length m <= length cur.
Proof.
  intros Hcur Hlen Hds Heq Hm.
  destruct (le_lt_dec (length m) (length cur)) as [Hle|Hlt]; [exact Hle|exfalso].
  assert (Hn : 1 <= length cur) by (destruct cur; [contradiction|simpl; lia]).
  assert (Hdig : forall j, j < 10 ->
            exists d, (m ++ rest') !! (length cur + j) = Some d /\ is_digit d = true).
  { intros j Hj. rewrite <- Heq, lookup_after by lia.
    destruct (ds !! j) as [d|] eqn:E.
    - exists d. split; [reflexivity|]. eapply all_lookup; eauto.
    - apply lookup_ge_None in E. lia. }
  assert (Hshape : exists X L, m = X ++ "@"%char :: L /\ all is_letter L /\
            ((length X = 10 /\ all is_digit X) \/ all is_letter X)).
  { destruct Hm as [(X & L & -> & HX & HdX & _ & HL) | (X & L & -> & _ & HX & _ & HL)];
      exists X, L; auto. }
  destruct Hshape as (X & L & -> & HL & HX).
  rewrite length_app in Hlt. simpl in Hlt.
  destruct (Hdig 0) as (d0 & Hd0 & Dd0); [lia|].
  rewrite Nat.add_0_r in Hd0.
  rewrite <- app_assoc in Hd0, Hdig. cbn [app] in Hd0, Hdig.
  destruct (lt_eq_lt_dec (length cur) (length X)) as [[Hlt1|Heq1]|Hgt1].
  - rewrite lookup_app_l in Hd0 by lia.
    destruct HX as [[HX10 HXd]|HXl].
    + destruct (Hdig (10 - length cur)) as (d & Hd & Dd); [lia|].
      replace (length cur + (10 - length cur)) with (length X) in Hd by lia.
      rewrite list_lookup_middle in Hd by reflexivity.
      injection Hd as <-. rewrite at_not_digit in Dd. discriminate.
    + pose proof (all_lookup _ _ _ _ HXl Hd0) as Hl.
      apply digit_not_letter in Dd0. congruence.
  - rewrite Heq1, list_lookup_middle in Hd0 by reflexivity.
    injection Hd0 as <-. rewrite at_not_digit in Dd0. discriminate.
  - rewrite lookup_app_r in Hd0 by lia.
    destruct (length cur - length X) as [|i] eqn:Ei; [lia|]. simpl in Hd0.
    rewrite lookup_app_l in Hd0 by lia.
    pose proof (all_lookup _ _ _ _ HL Hd0) as Hl.
    apply digit_not_letter in Dd0. congruence.
Qed.

Lemma scan_0 (r : regex) (bef rest : str) :
  scan r bef rest 0 =
  match match_at r bef rest with
  | Some (bef', _, cap) =>
      reported r bef bef' cap ::
      match rest with
      | [] => []
      | c :: rest' => scan r (c :: bef) rest' (length bef' - length bef - 1)
      end
  | None =>
      match rest with
      | [] => []
      | c :: rest' => scan r (c :: bef) rest' 0
      end
  end.
Proof. destruct rest; reflexivity. Qed.

(** Scanning from any position before a handle reports the handle. *)
Lemma scan_finds_handle (ds ls post : str) :
  length ds = 10 -> all is_digit ds -> ls <> [] -> all is_letter ls ->
  letters_end post ->
  forall cur bef skip,
    skip <= length cur ->
    In (ds ++ "@"%char :: ls)
       (scan upi_pattern bef (cur ++ ds ++ "@"%char :: ls ++ post) skip).
Proof.
  intros Hlen Hds Hne Hls Hpost.
  induction cur as [|c cur IH]; intros bef skip Hskip.
  - simpl in Hskip. assert (skip = 0) as -> by lia.
    rewrite app_nil_l, scan_0.
    rewrite match_at_handle by assumption. left.
    unfold reported. reflexivity.
  - destruct skip as [|n].
    + rewrite scan_0.
      destruct (match_at upi_pattern bef ((c :: cur) ++ ds ++ "@"%char :: ls ++ post))
        as [[[bef' rest'] cap]|] eqn:E.
      * right. simpl app. apply IH.
        apply match_at_sound in E as (m & Heq & -> & D).
        apply upi_pattern_shape in D as [_ Hm].
        pose proof (match_before_handle (c :: cur) ds _ m rest'
                      ltac:(discriminate) Hlen Hds Heq Hm) as Hle.
        rewrite length_app, length_rev. simpl in Hle. lia.
      * simpl app. apply IH. lia.
    + simpl. apply IH. simpl in Hskip. lia.
Qed.

(** C3, amended. A narration that contains ten digits, [@] and one or more
    letters, with no further letter right after them, has that substring,
    verbatim, among its identity tokens, whatever precedes the digits. *)
Theorem handle_is_identity (pre ds ls post : str) :
  length ds = 10 -> all is_digit ds -> ls <> [] -> all is_letter ls ->
  letters_end post ->
  ds ++ "@"%char :: ls ∈ (extract_names_and_upi (pre ++ ds ++ "@"%char :: ls ++ post)).2.
Proof.
  intros Hlen Hds Hne Hls Hpost. apply identities_elem. left.
  unfold findall. apply scan_finds_handle; auto. lia.
Qed.

Lemma handle_is_identity_witness :
  lit "9876543210@ybl" ∈ (extract_names_and_upi (lit "UPI 9876543210@ybl payment")).2.
Proof.
  apply (handle_is_identity (lit "UPI ") (lit "9876543210") (lit "ybl") (lit " payment")).
  - reflexivity.
  - repeat constructor.
  - discriminate.
  - repeat constructor.
  - reflexivity.
Defined.

(** C3, as stated without the condition on what follows the letters, fails:
    ["UPI 9876543210@yblpayment"] contains ["9876543210@ybl"], but the greedy
    letter run takes ["yblpayment"] and the only token reported is
    ["9876543210@yblpayment"]. *)
Lemma handle_before_letters_not_reported :
  lit "UPI 9876543210@yblpayment" =
    lit "UPI " ++ lit "9876543210" ++ "@"%char :: lit "ybl" ++ lit "payment" /\
  (lit "9876543210@ybl" ∉ (extract_names_and_upi (lit "UPI 9876543210@yblpayment")).2).
Proof.
  split; [reflexivity|]. rewrite identities_elem. vm_compute.
  intros [[H|[]]|[]]. discriminate.
Qed.

(** ** Bare numbers are no identity tokens *)

Lemma upper_is_letter (c : ascii) : is_upper c = true -> is_letter c = true.
Proof. unfold is_letter. intros ->. reflexivity. Qed.

Lemma handle_not_digits (tok : str) : is_handle tok -> ~ all is_digit tok.
Proof.
  intros (ds & ls & -> & _) Hall. apply Forall_app in Hall as [_ Hall].
  inversion Hall as [|? ? Hat _]. rewrite at_not_digit in Hat. discriminate.
Qed.

Lemma word_at_word_not_digits (tok : str) : is_word_at_word tok -> ~ all is_digit tok.
Proof.
  intros (xs & ls & -> & _) Hall. apply Forall_app in Hall as [_ Hall].
  inversion Hall as [|? ? Hat _]. rewrite at_not_digit in Hat. discriminate.
Qed.

Lemma two_word_name_not_digits (tok : str) : is_two_word_name tok -> ~ all is_digit tok.
Proof.
  intros (a & xs & sp & b & ys & -> & Ha & _) Hall.
  inversion Hall as [|? ? Hd _]. apply digit_not_letter in Hd.
  apply upper_is_letter in Ha. congruence.
Qed.

(** C4, as stated, fails: the standalone number of ["pay 9876543210 now"]
    is no identity token of [extract_names_and_upi], which reports nothing
    for this narration. *)
Lemma standalone_number_not_extracted :
  (lit "9876543210" ∉ (extract_names_and_upi (lit "pay 9876543210 now")).2) /\
  findall upi_pattern (lit "pay 9876543210 now") = [] /\
  findall name_pattern (lit "pay 9876543210 now") = [].
Proof.
  split; [|split].
  - rewrite identities_elem. vm_compute. intros [[]|[]].
  - vm_compute. reflexivity.
  - vm_compute. reflexivity.
Qed.

(** C4, amended. Every identity token of [extract_names_and_upi] is a
    handle (ten digits, [@], letters), a word [@] word, or a name of two
    capitalised words; a string of digits alone is never one.  The pattern
    with a standalone ten-digit alternative is that of the frequency
    analysis. *)
Theorem identity_is_never_a_bare_number (text tok : str) :
  tok ∈ (extract_names_and_upi text).2 ->
  (is_handle tok \/ is_word_at_word tok \/ is_two_word_name tok) /\
  ~ all is_digit tok.
Proof.
  intros Hin. apply identity_shape in Hin. split; [exact Hin|].
  destruct Hin as [H|[H|H]].
  - now apply handle_not_digits.
  - now apply word_at_word_not_digits.
  - now apply two_word_name_not_digits.
Qed.

Lemma identity_is_never_a_bare_number_witness :
  (is_handle (lit "9876543210@ybl") \/ is_word_at_word (lit "9876543210@ybl") \/
   is_two_word_name (lit "9876543210@ybl")) /\
  ~ all is_digit (lit "9876543210@ybl").
Proof.
  apply (identity_is_never_a_bare_number (lit "UPI 9876543210@ybl payment")).
  apply identities_elem. left. vm_compute. left. reflexivity.
Defined.

(** The frequency analysis does take a standalone number. *)
Example frequency_takes_standalone_number :
  extracted_mobile_upi (lit "pay 9876543210 now") = Some (lit "9876543210").
Proof. vm_compute. reflexivity. Qed.

(** ** First match in a list *)

Lemma find_first_match {A : Type} (p : A -> bool) (P : A -> Prop)
    (HP : forall x, p x = true <-> P x) (l : list A) :
  (forall x, List.find p l = Some x <->
     exists before after,
       l = before ++ x :: after /\ P x /\ forall y, In y before -> ~ P y) /\
  (List.find p l = None <-> forall y, In y l -> ~ P y).
Proof.
  induction l as [|a l [IHs IHn]]; simpl.
  - split.
    + intros x. split; [discriminate|].
      intros (before & after & Hl & _). destruct before; discriminate.
    + split; [intros _ y []|reflexivity].
  - destruct (p a) eqn:E.
    + assert (Ha : P a) by now apply HP.
      split.
      * intros x. split.
        -- intros [= <-]. exists [], l. repeat split; auto; intros y [].
        -- intros (before & after & Hl & Hx & Hb).
           destruct before as [|b before]; simpl in Hl; inversion Hl; subst.
           ++ reflexivity.
           ++ exfalso. apply (Hb b); simpl; auto.
      * split; [discriminate|]. intros Hall. exfalso. apply (Hall a); auto.
    + assert (Ha : ~ P a) by (rewrite <- HP; congruence).
      split.
      * intros x. rewrite IHs. split.
        -- intros (before & after & -> & Hx & Hb).
           exists (a :: before), after. repeat split; auto.
           intros y [<-|Hy]; auto.
        -- intros (before & after & Hl & Hx & Hb).
           destruct before as [|b before]; simpl in Hl; inversion Hl; subst.
           ++ contradiction.
           ++ exists before, after. repeat split; auto.
              intros y Hy. apply Hb. simpl. auto.
      * rewrite IHn. split.
        -- intros Hall y [<-|Hy]; auto.
        -- intros Hall y Hy. apply Hall. auto.
Qed.

Lemma detect_type_find (types : list str) (text : str) :
  detect_type types text =
  List.find (fun ttype => contains (lower ttype) (lower text)) types.
Proof.
  induction types as [|t types IH]; simpl; [reflexivity|].
  destruct (contains (lower t) (lower text)); [reflexivity|exact IH].
Qed.

Lemma first_column_find (cols names : list str) :
  first_column cols names =
  List.find (fun col => bool_decide (lower col ∈ names)) cols.
Proof.
  induction cols as [|c cols IH]; simpl; [reflexivity|].
  destruct (bool_decide (lower c ∈ names)); [reflexivity|exact IH].
Qed.

Lemma contains_keyword_occurs (ttype text : str) :
  contains (lower ttype) (lower text) = true <-> keyword_occurs ttype text.
Proof. apply contains_spec. Qed.

(** ** The method of a narration *)

(** C2, as stated, fails: with the order UPI, IMPS, NEFT, RTGS, Card, Cash
    Withdrawal the narration ["IMPS card payment"] would resolve to IMPS;
    the code resolves it to Card. *)
Lemma method_order_differs :
  (extract_names_and_upi (lit "IMPS card payment")).1 = Some (lit "Card") /\
  detect_type spec_method_order (lit "IMPS card payment") = Some (lit "IMPS").
Proof. split; vm_compute; reflexivity. Qed.

(** C2, amended. The method of a narration is the first entry of the list
    UPI, Card, Cash Withdrawal, NEFT, IMPS, RTGS (in this order) that occurs
    in the narration as a case-insensitive substring, and none exactly when
    no entry occurs. *)
Theorem method_is_first_match (text : str) :
  TRANSACTION_TYPES =
    [lit "UPI"; lit "Card"; lit "Cash Withdrawal"; lit "NEFT"; lit "IMPS"; lit "RTGS"] /\
  (forall ttype,
     (extract_names_and_upi text).1 = Some ttype <->
     exists before after,
       TRANSACTION_TYPES = before ++ ttype :: after /\
       keyword_occurs ttype text /\
       forall t, In t before -> ~ keyword_occurs t text) /\
  ((extract_names_and_upi text).1 = None <->
   forall t, In t TRANSACTION_TYPES -> ~ keyword_occurs t text).
Proof.
  split; [reflexivity|].
  unfold extract_names_and_upi. cbn [fst]. rewrite detect_type_find.
  apply find_first_match. intros t. apply contains_keyword_occurs.
Qed.

(** ** Narrations with nothing to extract *)

Lemma scan_no_match (r : regex) (rest : str) :
  forall bef skip, has_match_from r bef rest = false -> scan r bef rest skip = [].
Proof.
  induction rest as [|c rest IH]; intros bef skip; simpl.
  - destruct (match_at r bef []); [discriminate|]. intros _.
    destruct skip; reflexivity.
  - destruct (match_at r bef (c :: rest)); [discriminate|]. intros Hm.
    destruct skip; simpl; auto.
Qed.

Lemma detect_type_none (types : list str) (text : str) :
  (forall ttype, In ttype types -> contains (lower ttype) (lower text) = false) ->
  detect_type types text = None.
Proof.
  induction types as [|t types IH]; intros Hall; simpl; [reflexivity|].
  rewrite Hall by (simpl; auto). apply IH. intros u Hu. apply Hall. simpl. auto.
Qed.

(** C8. The extraction yields a result for every string; for a narration
    that contains no method keyword and in which neither identity pattern
    matches anywhere, the result is no method and the empty set. *)
Theorem nothing_to_extract (text : str) :
  (exists method identities, extract_names_and_upi text = (method, identities)) /\
  ((forall ttype, In ttype TRANSACTION_TYPES ->
      contains (lower ttype) (lower text) = false) ->
   has_match upi_pattern text = false ->
   has_match name_pattern text = false ->
   extract_names_and_upi text = (None, ∅)).
Proof.
  split; [eexists _, _; reflexivity|].
  intros Hkw Hupi Hname. unfold extract_names_and_upi, findall.
  rewrite (detect_type_none _ _ Hkw).
  rewrite (scan_no_match _ _ _ _ Hupi), (scan_no_match _ _ _ _ Hname).
  reflexivity.
Qed.

Lemma nothing_to_extract_witness :
  extract_names_and_upi (lit "random text no identifiers") = (None, ∅).
Proof.
  apply (proj2 (nothing_to_extract (lit "random text no identifiers"))).
  - intros ttype Hin. simpl in Hin.
    destruct Hin as [<-|[<-|[<-|[<-|[<-|[<-|[]]]]]]]; vm_compute; reflexivity.
  - vm_compute. reflexivity.
  - vm_compute. reflexivity.
Defined.

(** ** One key for a row of the frequency analysis *)

(** A row that matches both patterns, one with a token and one without a
    key. *)
Example frequency_name_and_number :
  extracted_names (lit "NEFT-Ramesh Kumar-AB12345678Z 9876543210") = Some (lit "Ramesh Kumar") /\
  extracted_mobile_upi (lit "NEFT-Ramesh Kumar-AB12345678Z 9876543210") = Some (lit "9876543210") /\
  frequency_rows (lit "a.xlsx")
    [lit "NEFT-Ramesh Kumar-AB12345678Z 9876543210"; lit "paid 9876543210@ybl"; lit "cheque"] =
  [(lit "Ramesh Kumar", lit "a.xlsx"); (lit "9876543210@ybl", lit "a.xlsx")].
Proof. repeat split; vm_compute; reflexivity. Qed.

(** ** The accumulators of the common-names analysis *)

Lemma fold_left_preserves {A B : Type} (f : A -> B -> A) (P : A -> Prop) (l : list B) :
  (forall st x, In x l -> P st -> P (f st x)) ->
  forall st, P st -> P (fold_left f l st).
Proof.
  induction l as [|x l IH]; intros Hf st Hst; simpl; [exact Hst|].
  apply IH.
  - intros st' y Hy. apply Hf. simpl. auto.
  - apply Hf; simpl; auto.
Qed.

Lemma identity_nonempty (text tok : str) :
  tok ∈ (extract_names_and_upi text).2 -> tok <> [].
Proof.
  intros Hin. apply identity_shape in Hin.
  destruct Hin as [(ds & ls & -> & _)|[(xs & ls & -> & _)|(a & xs & sp & b & ys & -> & _)]].
  - intros E. apply app_eq_nil in E as [_ E]. discriminate.
  - intros E. apply app_eq_nil in E as [_ E]. discriminate.
  - discriminate.
Qed.

Section CommonNamesFacts.
Context {amount : Type} `{PyNumeric amount}.

Lemma acc_inv_empty : acc_inv (amount := amount) empty_acc.
Proof. intros name. split; apply lookup_empty. Qed.

Lemma add_item_inv file text amt ttype (st : acc amount) item :
  acc_inv st -> acc_inv (add_item file text amt ttype st item).
Proof.
  intros Hinv name. specialize (Hinv name) as [Hc Hd].
  unfold add_item, records_of in *. cbn [name_counts transaction_details full_transaction_data].
  rewrite filter_app, filter_cons, filter_nil. cbn [ft_name].
  destruct (decide (item = name)) as [->|Hne].
  - rewrite !lookup_insert_eq, Hc, Hd.
    destruct (filter (fun r => ft_name r = name) (full_transaction_data st)) as [|r l];
      simpl.
    + auto.
    + split; f_equal.
      * rewrite length_app. simpl. lia.
      * now rewrite fmap_app.
  - rewrite !lookup_insert_ne by exact Hne. rewrite app_nil_r. auto.
Qed.

Lemma add_item_valid file text amt ttype (st : acc amount) item :
  item <> [] -> isna amt = false -> eq_zero amt = false ->
  Forall valid_record (full_transaction_data st) ->
  Forall valid_record (full_transaction_data (add_item file text amt ttype st item)).
Proof.
  intros Hne Hna Hz Hall. unfold add_item. cbn [full_transaction_data].
  apply Forall_app. split; [exact Hall|].
  constructor; [|constructor]. repeat split; assumption.
Qed.

Lemma process_row_skip file desc_col amount_col (st : acc amount) row :
  isna (cell_num (row amount_col)) = true \/ eq_zero (cell_num (row amount_col)) = true ->
  process_row file desc_col amount_col st row = st.
Proof.
  intros Hbad. unfold process_row.
  destruct Hbad as [-> | ->]; [reflexivity|]. now rewrite orb_true_r.
Qed.

Lemma process_row_inv file desc_col amount_col (st : acc amount) row :
  acc_inv st /\ Forall valid_record (full_transaction_data st) ->
  acc_inv (process_row file desc_col amount_col st row) /\
  Forall valid_record (full_transaction_data (process_row file desc_col amount_col st row)).
Proof.
  intros Hst. unfold process_row.
  destruct (isna (cell_num (row amount_col))) eqn:Hna; [exact Hst|].
  destruct (eq_zero (cell_num (row amount_col))) eqn:Hz; [exact Hst|]. cbn [orb].
  destruct (extract_names_and_upi (cell_str (row desc_col))) as [ttype ids] eqn:E.
  apply fold_left_preserves; [|exact Hst].
  intros st' item Hin [Hinv Hall]. split.
  - now apply add_item_inv.
  - apply add_item_valid; auto.
    apply (identity_nonempty (cell_str (row desc_col))). rewrite E. cbn [snd].
    apply elem_of_elements, list_elem_of_In. exact Hin.
Qed.

Lemma process_file_inv (st : acc amount) file :
  acc_inv st /\ Forall valid_record (full_transaction_data st) ->
  acc_inv (process_file st file) /\
  Forall valid_record (full_transaction_data (process_file st file)).
Proof.
  intros Hst. unfold process_file.
  destruct (first_column (columns (df file)) description_columns); [|exact Hst].
  destruct (first_column (columns (df file)) amount_columns); [|exact Hst].
  apply fold_left_preserves; [|exact Hst].
  intros st' row _. apply process_row_inv.
Qed.

Lemma process_files_inv files :
  acc_inv (process_files files) /\
  Forall valid_record (full_transaction_data (process_files files)).
Proof.
  unfold process_files. apply fold_left_preserves.
  - intros st file _. apply process_file_inv.
  - split; [apply acc_inv_empty|constructor].
Qed.

(** A table without a description column or without an amount column is
    skipped. *)
Lemma process_file_without_columns (st : acc amount) (file : upload amount) :
  first_column (columns (df file)) description_columns = None \/
  first_column (columns (df file)) amount_columns = None ->
  process_file st file = st.
Proof.
  unfold process_file. intros [-> | ->]; [reflexivity|].
  now destruct (first_column (columns (df file)) description_columns).
Qed.

(** C5. Every record that the common-names analysis retains, and every
    name it counts, has a non-empty identity token and an amount that is
    neither NaN nor 0; a row whose amount is NaN or 0 adds nothing,
    whatever its description. *)
Theorem normalized_records_valid (files : list (upload amount)) :
  (forall r, In r (full_transaction_data (process_files files)) -> valid_record r) /\
  (forall name n, name_counts (process_files files) !! name = Some n ->
     name <> [] /\
     exists r, In r (full_transaction_data (process_files files)) /\ ft_name r = name) /\
  (forall file desc_col amount_col st row,
     isna (cell_num (row amount_col)) = true \/
     eq_zero (cell_num (row amount_col)) = true ->
     process_row file desc_col amount_col st row = st).
Proof.
  destruct (process_files_inv files) as [Hinv Hall].
  rewrite Forall_forall in Hall.
  split; [|split].
  - intros r Hin. apply Hall, list_elem_of_In, Hin.
  - intros name n Hn. destruct (Hinv name) as [Hc _]. rewrite Hn in Hc.
    destruct (records_of name (full_transaction_data (process_files files)))
      as [|r l] eqn:E; [discriminate|].
    assert (Hr : r ∈ records_of name (full_transaction_data (process_files files))).
    { rewrite E. left. }
    unfold records_of in Hr. apply list_elem_of_filter in Hr as [Hname Hr].
    split.
    + rewrite <- Hname. apply (Hall r Hr).
    + exists r. split; [now apply list_elem_of_In|exact Hname].
  - intros. now apply process_row_skip.
Qed.
End CommonNamesFacts.

Lemma normalized_records_valid_witness :
  process_row (lit "a.xlsx") (lit "Description") (lit "Amount") empty_acc
    (two_column_row "UPI 9876543210@ybl payment" (Cell (lit "0") (PyInt 0))) =
  empty_acc.
Proof.
  apply (proj2 (proj2 (normalized_records_valid (amount := pynum) []))).
  right. reflexivity.
Defined.

(** The same row with the amount 250 is retained. *)
Example nonzero_amount_row_retained :
  map (fun r => (ft_name r, ft_amount r))
    (full_transaction_data
       (process_row (lit "a.xlsx") (lit "Description") (lit "Amount") empty_acc
          (two_column_row "UPI 9876543210@ybl payment" (Cell (lit "250") (PyInt 250))))) =
  [(lit "9876543210@ybl", PyInt 250)].
Proof. vm_compute. reflexivity. Qed.

(** ** The columns of the common-names analysis *)

(** C7, as stated, fails: the labels ["Transaction Description"] and
    ["Txn Amount"] contain the keywords ["description"] and ["amount"], and
    [detect_column] finds them, but the common-names analysis finds neither
    column and reads nothing from the table, whose row it would count with
    these columns. *)
Lemma substring_labels_not_found :
  let cols := columns (df statement_long_labels) in
  detect_column cols description_columns = Some (lit "Transaction Description") /\
  detect_column cols amount_columns = Some (lit "Txn Amount") /\
  process_file empty_acc statement_long_labels = empty_acc /\
  common_names [statement_long_labels] = EmptyWorkbook /\
  name_counts
    (fold_left (process_row (lit "long.xlsx") (lit "Transaction Description") (lit "Txn Amount"))
       (rows (df statement_long_labels)) empty_acc) !! lit "9876543210@ybl" = Some 1.
Proof. repeat split; vm_compute; reflexivity. Qed.

Lemma first_column_spec (cols names : list str) :
  (forall col,
     first_column cols names = Some col <->
     exists before after,
       cols = before ++ col :: after /\
       exact_name names col /\
       forall c, In c before -> ~ exact_name names c) /\
  (first_column cols names = None <->
   forall c, In c cols -> ~ exact_name names c).
Proof.
  rewrite first_column_find. apply find_first_match.
  intros c. rewrite bool_decide_eq_true. apply list_elem_of_In.
Qed.

Section CommonNamesColumns.
Context {amount : Type} `{PyNumeric amount}.

(** C7, amended. The common-names analysis locates its two columns by exact
    name.  The description column is the first label, in table order, whose
    lower-cased form is equal to one of description, narration,
    particulars, transaction details, remarks; the amount column is the
    first label whose lower-cased form is equal to one of amount, deposits,
    withdrawals, dr / cr, balance.  The rows of the table are read from
    these two columns, and a table in which no label is equal to a name of
    one of the two lists, whatever its labels contain, is passed over. *)
Theorem first_column_exact_label (st : acc amount) (file : upload amount) :
  let first (names : list str) (col : str) :=
    exists before after,
      columns (df file) = before ++ col :: after /\
      exact_name names col /\
      forall c, In c before -> ~ exact_name names c in
  let missing (names : list str) :=
    forall c, In c (columns (df file)) -> ~ exact_name names c in
  description_columns =
    [lit "description"; lit "narration"; lit "particulars";
     lit "transaction details"; lit "remarks"] /\
  amount_columns =
    [lit "amount"; lit "deposits"; lit "withdrawals"; lit "dr / cr"; lit "balance"] /\
  (forall desc_col amount_col,
     first description_columns desc_col -> first amount_columns amount_col ->
     process_file st file =
     fold_left (process_row (filename file) desc_col amount_col) (rows (df file)) st) /\
  (missing description_columns \/ missing amount_columns -> process_file st file = st).
Proof.
  intros first missing.
  destruct (first_column_spec (columns (df file)) description_columns) as [Ds Dn].
  destruct (first_column_spec (columns (df file)) amount_columns) as [As An].
  split; [reflexivity|]. split; [reflexivity|]. split.
  - intros desc_col amount_col Hd Ha. unfold process_file.
    now rewrite (proj2 (Ds desc_col) Hd), (proj2 (As amount_col) Ha).
  - intros Hm. apply process_file_without_columns.
    destruct Hm as [Hm|Hm]; [left; now apply Dn|right; now apply An].
Qed.
End CommonNamesColumns.

Lemma first_column_exact_label_witness :
  process_file empty_acc statement_imps =
  fold_left (process_row (lit "A.xlsx") (lit "Description") (lit "Amount"))
    (rows (df statement_imps)) empty_acc.
Proof.
  apply (proj1 (proj2 (proj2 (first_column_exact_label empty_acc statement_imps)))).
  - exists [], [lit "Amount"]. split; [reflexivity|]. split; [left; reflexivity|].
    intros c [].
  - exists [lit "Description"], []. split; [reflexivity|]. split; [left; reflexivity|].
    intros c [<-|[]] Hc. vm_compute in Hc.
    repeat (destruct Hc as [Hc|Hc]; [discriminate|]). exact Hc.
Defined.


Section Aggregation.
Context {amount : Type} `{PyNumeric amount}.

Lemma common_names_list_lookup (st : acc amount) (name : str) (n : nat) :
  acc_inv st ->
  (common_names_list st !! name = Some n <->
   n = length (records_of name (full_transaction_data st)) /\ 1 < n).
Proof.
  intros Hinv. unfold common_names_list. rewrite map_lookup_filter_Some. cbn [snd].
  destruct (Hinv name) as [-> _].
  destruct (records_of name (full_transaction_data st)) as [|r l]; simpl.
  - split; [intros [[=] _]|intros [-> Hn]; lia].
  - split; [intros [[= <-] Hn]|intros [-> Hn]]; auto.
Qed.

(** What the analysis reports for an identity: its count is the number of
    its records; it is listed as common exactly when that number exceeds
    1; its total is the sum of those of its amounts that are instances of
    [int] or [float]. *)
Lemma aggregate_per_identity (files : list (upload amount)) (name : str) :
  let st := process_files files in
  let recs := records_of name (full_transaction_data st) in
  default 0 (name_counts st !! name) = length recs /\
  (forall n, common_names_list st !! name = Some n <-> n = length recs /\ 1 < n) /\
  (recs <> [] ->
   exists s, (summarize <$> transaction_details st) !! name = Some s /\
     total_transactions s = length recs /\
     total_amount s =
       py_sum (filter (fun a => is_int_or_float a = true) (map ft_amount recs))).
Proof.
  intros st recs. destruct (process_files_inv files) as [Hinv _].
  fold st in Hinv. split; [|split].
  - destruct (Hinv name) as [-> _]. fold recs. now destruct recs.
  - intros n. now apply common_names_list_lookup.
  - intros Hne. destruct (Hinv name) as [_ Hd]. fold recs in Hd.
    rewrite lookup_fmap, Hd. destruct recs as [|r l]; [contradiction|].
    eexists. split; [reflexivity|]. unfold summarize.
    cbn [total_transactions total_amount]. split.
    + now rewrite length_fmap.
    + do 2 f_equal. rewrite <- list_fmap_compose. reflexivity.
Qed.

(** C9. When the tables gave no record at all, or no identity has more
    than one record, the list of common names is empty and the request
    ends with the workbook that holds the header row only. *)
Theorem no_common_names_empty_workbook (files : list (upload amount)) :
  let st := process_files files in
  (full_transaction_data st = [] \/
   (forall name, length (records_of name (full_transaction_data st)) <= 1)) ->
  common_names_list st = ∅ /\
  report st = EmptyWorkbook /\
  (files <> [] -> common_names files = EmptyWorkbook).
Proof.
  intros st Hfew. destruct (process_files_inv files) as [Hinv _]. fold st in Hinv.
  assert (Hle : forall name, length (records_of name (full_transaction_data st)) <= 1).
  { destruct Hfew as [Hnil|Hle]; [|exact Hle].
    intros name. rewrite Hnil. unfold records_of. rewrite filter_nil. simpl. lia. }
  assert (Hempty : common_names_list st = ∅).
  { apply map_empty. intros name.
    destruct (common_names_list st !! name) as [n|] eqn:E; [|reflexivity].
    apply common_names_list_lookup in E as [-> Hn]; [|exact Hinv].
    specialize (Hle name). lia. }
  assert (Hreport : report st = EmptyWorkbook).
  { unfold report. now rewrite decide_True. }
  repeat split; auto.
  intros Hfiles. unfold common_names. destruct files; [contradiction|exact Hreport].
Qed.
End Aggregation.

Lemma no_common_names_empty_workbook_witness :
  common_names_list (process_files [statement_a]) = ∅ /\
  report (process_files [statement_a]) = EmptyWorkbook /\
  ([statement_a] <> [] -> common_names [statement_a] = EmptyWorkbook).
Proof.
  apply (no_common_names_empty_workbook (amount := pynum) [statement_a]).
  right. intros name. unfold records_of.
  change (full_transaction_data (process_files [statement_a]))
    with [{| ft_name := lit "9876543210@ybl"; ft_type := None;
             ft_amount := NpInt64 500; ft_description := lit "paid 9876543210@ybl";
             ft_file := lit "a.xlsx" |}].
  rewrite filter_cons, filter_nil. destruct (decide _); simpl; lia.
Defined.

(** ** Amounts left out of the total *)

(** C1. Two statements name ["9876543210@ybl"] once each, with the amounts
    500 and 700 held as text in a column that also holds a remark.  The
    identity is counted twice, both records are retained with their
    amounts, and the total reported for it is 0: [pd.to_numeric] turns the
    strings into [numpy.int64] values, which are no instances of [int] or
    [float] and are left out of the sum. *)
Theorem text_amounts_left_out_of_total :
  exists common_df transaction_df full_transaction_df,
    common_names [statement_a; statement_b] =
      Workbook common_df transaction_df full_transaction_df /\
    common_df !! lit "9876543210@ybl" = Some 2 /\
    map ft_amount (records_of (lit "9876543210@ybl") full_transaction_df) =
      [NpInt64 500; NpInt64 700] /\
    total_transactions <$> transaction_df !! lit "9876543210@ybl" = Some 2 /\
    total_amount <$> transaction_df !! lit "9876543210@ybl" = Some (PyInt 0) /\
    py_sum [NpInt64 500; NpInt64 700] = NpInt64 1200.
Proof.
  eexists _, _, _. split; [vm_compute; reflexivity|].
  repeat split; vm_compute; reflexivity.
Qed.

(** With numeric cells the total is the sum: one name in two statements,
    with the amounts 500 and 1200, in either order of the statements. *)
Example numeric_amounts_are_summed :
  forall files,
    files = [statement_imps; statement_neft] \/ files = [statement_neft; statement_imps] ->
    exists common_df transaction_df full_transaction_df,
      common_names files = Workbook common_df transaction_df full_transaction_df /\
      common_df !! lit "Ramesh Kumar" = Some 2 /\
      total_transactions <$> transaction_df !! lit "Ramesh Kumar" = Some 2 /\
      total_amount <$> transaction_df !! lit "Ramesh Kumar" = Some (PyInt 1700) /\
      transaction_types <$> transaction_df !! lit "Ramesh Kumar" =
        Some {[lit "IMPS"; lit "NEFT"]}.
Proof.
  intros files [-> | ->]; eexists _, _, _;
    (split; [vm_compute; reflexivity|]);
    repeat split; try (vm_compute; reflexivity);
    apply (f_equal Some); apply set_eq; intros x;
    rewrite !elem_of_list_to_set; set_solver.
Qed.

(** ** Column detection: letter case and keywords *)

Lemma detect_column_find (cols keywords : list str) :
  detect_column cols keywords =
  List.find (fun col => existsb (keyword_in col) keywords) cols.
Proof.
  induction cols as [|c cols IH]; simpl; [reflexivity|].
  destruct (existsb (keyword_in c) keywords); [reflexivity|exact IH].
Qed.

Lemma existsb_keyword_in_lower (col : str) (keywords : list str) :
  existsb (keyword_in col) keywords =
  existsb (fun k => contains k (lower col)) (map lower keywords).
Proof.
  induction keywords as [|k keywords IH]; simpl; [reflexivity|].
  now rewrite IH.
Qed.

(** X1. Detection looks at labels and keywords through [lower] only:
    keywords that differ in letter case find the same column, and for
    labels that differ in letter case the columns found are the same up to
    letter case. *)
Theorem detect_column_ignores_case (cols cols' keywords keywords' : list str) :
  map lower keywords = map lower keywords' ->
  Forall2 (fun col col' => lower col = lower col') cols cols' ->
  detect_column cols keywords = detect_column cols keywords' /\
  lower <$> detect_column cols keywords = lower <$> detect_column cols' keywords'.
Proof.
  intros Hk Hc.
  assert (Hsame : forall col col', lower col = lower col' ->
            existsb (keyword_in col) keywords = existsb (keyword_in col') keywords').
  { intros col col' E. now rewrite !existsb_keyword_in_lower, Hk, E. }
  split.
  - clear Hc. induction cols as [|c cols IH]; simpl; [reflexivity|].
    rewrite (Hsame c c eq_refl).
    destruct (existsb (keyword_in c) keywords'); [reflexivity|exact IH].
  - induction Hc as [|c c' cols cols' E Hc IH]; simpl; [reflexivity|].
    rewrite (Hsame c c' E).
    destruct (existsb (keyword_in c') keywords'); [|exact IH].
    simpl. now rewrite E.
Qed.

Lemma detect_column_ignores_case_witness :
  detect_column [lit "DATE"; lit "NARRATION"] [lit "narration"] =
  detect_column [lit "DATE"; lit "NARRATION"] [lit "Narration"] /\
  lower <$> detect_column [lit "DATE"; lit "NARRATION"] [lit "narration"] =
  lower <$> detect_column [lit "date"; lit "Narration"] [lit "Narration"].
Proof.
  apply (detect_column_ignores_case [lit "DATE"; lit "NARRATION"]
           [lit "date"; lit "Narration"] [lit "narration"] [lit "Narration"]).
  - reflexivity.
  - repeat constructor.
Defined.

(** Keyword lists that match the same labels detect the same column. *)
Lemma detect_column_same_matches (cols keywords keywords' : list str) :
  (forall col, label_matches keywords col <-> label_matches keywords' col) ->
  detect_column cols keywords = detect_column cols keywords'.
Proof.
  intros Hsame. induction cols as [|c cols IH]; simpl; [reflexivity|].
  assert (E : existsb (keyword_in c) keywords = existsb (keyword_in c) keywords').
  { apply eq_true_iff_eq. rewrite !existsb_keyword_in. apply Hsame. }
  rewrite E, IH. reflexivity.
Qed.

(** A keyword that contains another keyword of the list adds nothing. *)
Lemma detect_column_redundant (cols keywords keywords' : list str) :
  (forall k, In k keywords -> In k keywords') ->
  (forall e, In e keywords' ->
     exists k, In k keywords /\ exists pre post, lower e = pre ++ lower k ++ post) ->
  detect_column cols keywords' = detect_column cols keywords.
Proof.
  intros Hin Hcover. apply detect_column_same_matches. intros col. split.
  - intros (e & He & pre & post & Hcol).
    destruct (Hcover e He) as (k & Hk & pre' & post' & Hek).
    exists k. split; [exact Hk|]. exists (pre ++ pre'), (post' ++ post).
    rewrite Hcol, Hek, <- !app_assoc. reflexivity.
  - intros (k & Hk & Hcol). exists k. split; auto.
Qed.

(** The same, with the two conditions computed. *)
Lemma detect_column_redundant_check (cols keywords keywords' : list str) :
  forallb (fun k => bool_decide (k ∈ keywords')) keywords &&
  forallb (fun e => existsb (fun k => contains (lower k) (lower e)) keywords) keywords'
    = true ->
  detect_column cols keywords' = detect_column cols keywords.
Proof.
  rewrite andb_true_iff, !forallb_forall. intros [Hin Hcover].
  apply detect_column_redundant.
  - intros k Hk. apply Hin in Hk. apply bool_decide_eq_true in Hk.
    now apply list_elem_of_In.
  - intros e He. apply Hcover in He. apply existsb_exists in He as (k & Hk & Hc).
    exists k. split; [exact Hk|]. now apply contains_spec.
Qed.

(** X2. Several keywords of the requests are covered by shorter ones: the
    credit column of the range request is the first label that contains
    [cr] or [deposit], its debit column the first that contains [dr] or
    [debit]; for the totals the keywords [deposits] and [withdrawals] add
    nothing. *)
Theorem keyword_lists_reduced (cols : list str) :
  detect_column cols range_credit_keywords = detect_column cols [lit "cr"; lit "deposit"] /\
  detect_column cols range_debit_keywords = detect_column cols [lit "dr"; lit "debit"] /\
  detect_column cols totals_credit_keywords =
    detect_column cols [lit "credit"; lit "amount"; lit "deposit"] /\
  detect_column cols totals_debit_keywords =
    detect_column cols [lit "debit"; lit "amount"; lit "withdrawal"].
Proof.
  repeat split; apply detect_column_redundant_check; vm_compute; reflexivity.
Qed.

(** ** Ranges and totals *)

Lemma detect_column_first (cols keywords before after : list str) (col : str) :
  cols = before ++ col :: after ->
  label_matches keywords col ->
  (forall c, In c before -> ~ label_matches keywords c) ->
  detect_column cols keywords = Some col.
Proof.
  intros Hcols Hm Hb. rewrite detect_column_find.
  apply (find_first_match _ (label_matches keywords) (existsb_keyword_in keywords)).
  exists before, after. auto.
Qed.

Lemma detect_column_none (cols keywords : list str) :
  detect_column cols keywords = None <->
  forall c, In c cols -> ~ label_matches keywords c.
Proof.
  rewrite detect_column_find.
  apply (find_first_match _ (label_matches keywords) (existsb_keyword_in keywords)).
Qed.

Lemma detect_column_some (cols keywords : list str) (col : str) :
  detect_column cols keywords = Some col ->
  In col cols /\ label_matches keywords col.
Proof.
  rewrite detect_column_find. intros E.
  apply (find_first_match _ (label_matches keywords) (existsb_keyword_in keywords))
    in E as (before & after & -> & Hm & _).
  split; [|exact Hm]. apply in_or_app. right. left. reflexivity.
Qed.

Lemma lower_nil (s : str) : lower s = [] -> s = [].
Proof. destruct s; [reflexivity|discriminate]. Qed.

(** A label that contains a non-empty keyword is not empty. *)
Lemma label_matches_nonempty (keywords : list str) (col : str) :
  Forall (fun k => k <> []) keywords -> label_matches keywords col -> col <> [].
Proof.
  rewrite Forall_forall. intros Hne (k & Hk & pre & post & E) ->.
  simpl in E. symmetry in E.
  apply app_eq_nil in E as [_ E]. apply app_eq_nil in E as [E _].
  apply lower_nil in E. apply (Hne k); [now apply list_elem_of_In|exact E].
Qed.

Lemma found_detect_column (cols keywords : list str) :
  Forall (fun k => k <> []) keywords ->
  found (detect_column cols keywords) = detect_column cols keywords.
Proof.
  intros Hne. destruct (detect_column cols keywords) as [col|] eqn:E; [|reflexivity].
  apply detect_column_some in E as [_ Hm].
  apply (label_matches_nonempty _ _ Hne) in Hm. destruct col; [contradiction|reflexivity].
Qed.

Lemma label_matches_app (ks ks' : list str) (col : str) :
  label_matches (ks ++ ks') col <-> label_matches ks col \/ label_matches ks' col.
Proof.
  unfold label_matches. split.
  - intros (k & Hk & H). apply in_app_or in Hk as [Hk|Hk]; [left|right]; eauto.
  - intros [(k & Hk & H)|(k & Hk & H)]; exists k; (split; [|exact H]);
      apply in_or_app; auto.
Qed.

Lemma filter_constant {A : Type} (p : A -> bool) (b : bool) (l : list A) :
  (forall x, In x l -> p x = b) -> List.filter p l = if b then l else [].
Proof.
  induction l as [|x l IH]; intros Hp; simpl.
  - now destruct b.
  - rewrite (Hp x) by (simpl; auto). rewrite IH by (intros y Hy; apply Hp; simpl; auto).
    now destruct b.
Qed.

Section RangesAndTotalsFacts.
Context {amount bound : Type} `{PyNumeric amount} `{PandasOps amount bound}.

(** X3. The keyword [cr] of the range request occurs in ["description"].
    In a table whose description label comes before every label with a
    credit keyword, the description column is taken for the credit column;
    when its cells are no numbers, each counts as 0 and a credit query
    returns all rows or none, whatever the credit values are. *)
Theorem range_credit_reads_description (greater_than less_than : bound)
    (file : upload amount) (before after : list str) (label : str) :
  columns (df file) = before ++ label :: after ->
  (exists pre post, lower label = pre ++ lit "description" ++ post) ->
  (forall c, In c before -> ~ label_matches range_credit_keywords c) ->
  (forall row, In row (rows (df file)) -> isna (cell_num (row label)) = true) ->
  found (detect_column (columns (df file)) range_credit_keywords) = Some label /\
  range_file (Some (lit "credit")) greater_than less_than file =
    if series_gt number_zero greater_than && series_lt number_zero less_than
    then match rows (df file) with
         | [] => RangeNoTransactions
         | table => RangeFiltered table
         end
    else RangeNoTransactions.
Proof.
  intros Hcols (pre & post & Hlabel) Hbefore Hnan.
  assert (Hm : label_matches range_credit_keywords label).
  { exists (lit "cr"). split; [simpl; auto|].
    exists (pre ++ lit "des"), (lit "iption" ++ post).
    rewrite Hlabel, <- !app_assoc. reflexivity. }
  assert (Hne : Forall (fun k : list ascii => k <> []) range_credit_keywords)
    by (repeat constructor; discriminate).
  assert (Hfound : found (detect_column (columns (df file)) range_credit_keywords) =
                   Some label).
  { rewrite (found_detect_column _ _ Hne).
    eapply detect_column_first; eauto. }
  split; [exact Hfound|].
  unfold range_file, range_filter. rewrite Hfound.
  rewrite bool_decide_eq_true_2 by reflexivity.
  rewrite (filter_constant _
             (series_gt number_zero greater_than && series_lt number_zero less_than)).
  - destruct (found (detect_column (columns (df file)) range_debit_keywords));
      destruct (series_gt number_zero greater_than && series_lt number_zero less_than);
      reflexivity.
  - intros row Hrow. unfold within_bounds, numeric_value.
    now rewrite (Hnan row Hrow).
Qed.

(** X4. A range query for a type whose column is missing, or for a type
    that is none of credit, debit and both, filters nothing: when the other
    column exists, all rows of the table are returned, whatever the bounds. *)
Theorem range_unfiltered_without_column (transaction_type : option str)
    (greater_than less_than : bound) (file : upload amount) :
  let credit_col := found (detect_column (columns (df file)) range_credit_keywords) in
  let debit_col := found (detect_column (columns (df file)) range_debit_keywords) in
  credit_col <> None \/ debit_col <> None ->
  transaction_type <> Some (lit "both") ->
  (transaction_type = Some (lit "credit") -> credit_col = None) ->
  (transaction_type = Some (lit "debit") -> debit_col = None) ->
  rows (df file) <> [] ->
  range_file transaction_type greater_than less_than file = RangeFiltered (rows (df file)).
Proof.
  intros credit_col debit_col Hsome Hboth Hcredit Hdebit Hrows.
  unfold range_file, range_filter. fold credit_col debit_col.
  rewrite (bool_decide_eq_false_2 _ Hboth).
  assert (E1 : (if bool_decide (transaction_type = Some (lit "credit"))
                then credit_col else None) = None).
  { destruct (decide (transaction_type = Some (lit "credit"))) as [E|E].
    - rewrite bool_decide_eq_true_2 by exact E. now apply Hcredit.
    - now rewrite bool_decide_eq_false_2. }
  assert (E2 : (if bool_decide (transaction_type = Some (lit "debit"))
                then debit_col else None) = None).
  { destruct (decide (transaction_type = Some (lit "debit"))) as [E|E].
    - rewrite bool_decide_eq_true_2 by exact E. now apply Hdebit.
    - now rewrite bool_decide_eq_false_2. }
  rewrite E1, E2.
  destruct credit_col, debit_col; try (destruct Hsome; congruence);
    destruct (rows (df file)); try contradiction; reflexivity.
Qed.

(** X5. Both keyword lists of the totals hold [amount].  When the first
    label that has a keyword of either list contains [amount], it is taken
    for the credit and for the debit column, and the two totals are the
    same number, the sum of that one column. *)
Theorem totals_share_amount_column (file : upload amount)
    (before after : list str) (label : str) :
  columns (df file) = before ++ label :: after ->
  (exists pre post, lower label = pre ++ lit "amount" ++ post) ->
  (forall c, In c before ->
     ~ label_matches (totals_credit_keywords ++ totals_debit_keywords) c) ->
  totals_file file =
    Some (series_sum (map (numeric_value label) (rows (df file))),
          series_sum (map (numeric_value label) (rows (df file)))).
Proof.
  intros Hcols Hlabel Hbefore.
  assert (Hfound : forall keywords,
            In (lit "amount") keywords -> Forall (fun k : list ascii => k <> []) keywords ->
            (forall c, In c before -> ~ label_matches keywords c) ->
            found (detect_column (columns (df file)) keywords) = Some label).
  { intros keywords Hin Hne Hb. rewrite (found_detect_column _ _ Hne).
    eapply detect_column_first; eauto. exists (lit "amount"). auto. }
  assert (Hc : found (detect_column (columns (df file)) totals_credit_keywords) =
               Some label).
  { apply Hfound; [simpl; auto | repeat constructor; discriminate |].
    intros c Hc Hm. apply (Hbefore c Hc). apply label_matches_app. auto. }
  assert (Hd : found (detect_column (columns (df file)) totals_debit_keywords) =
               Some label).
  { apply Hfound; [simpl; auto | repeat constructor; discriminate |].
    intros c Hc' Hm. apply (Hbefore c Hc'). apply label_matches_app. auto. }
  unfold totals_file. rewrite Hc, Hd. reflexivity.
Qed.

End RangesAndTotalsFacts.

Lemma range_credit_reads_description_witness :
  found (detect_column (columns (df ledger)) range_credit_keywords) =
    Some (lit "Description") /\
  range_file (Some (lit "credit")) (Some 1000%Z) (Some 9000%Z) ledger =
    RangeNoTransactions.
Proof.
  assert (H2 : exists pre post, lower (lit "Description") = pre ++ lit "description" ++ post)
    by (exists [], []; reflexivity).
  assert (H3 : forall c, In c [lit "Date"] -> ~ label_matches range_credit_keywords c).
  { intros c [<-|[]] Hm. apply existsb_keyword_in in Hm. vm_compute in Hm. discriminate. }
  assert (H4 : forall row, In row (rows (df ledger)) ->
                 isna (cell_num (row (lit "Description"))) = true).
  { intros row [<-|[<-|[]]]; reflexivity. }
  exact (range_credit_reads_description (Some 1000%Z) (Some 9000%Z) ledger
           [lit "Date"] [lit "Debit"; lit "Credit"] (lit "Description") eq_refl H2 H3 H4).
Defined.

Lemma range_unfiltered_without_column_witness :
  range_file (Some (lit "credit")) (Some 1000%Z) (Some 9000%Z) debit_only =
  RangeFiltered (rows (df debit_only)).
Proof.
  apply (range_unfiltered_without_column (Some (lit "credit")) (Some 1000%Z)
           (Some 9000%Z) debit_only).
  - right. discriminate.
  - discriminate.
  - reflexivity.
  - discriminate.
  - discriminate.
Defined.

Lemma totals_share_amount_column_witness :
  totals_file amounts_ledger = Some (NpInt64 900, NpInt64 900).
Proof.
  assert (H2 : exists pre post, lower (lit "Debit Amount") = pre ++ lit "amount" ++ post)
    by (exists (lit "debit "), []; reflexivity).
  assert (H3 : forall c, In c [lit "Date"] ->
                 ~ label_matches (totals_credit_keywords ++ totals_debit_keywords) c).
  { intros c [<-|[]] Hm. apply existsb_keyword_in in Hm. vm_compute in Hm. discriminate. }
  exact (totals_share_amount_column amounts_ledger [lit "Date"] [lit "Credit Amount"]
           (lit "Debit Amount") eq_refl H2 H3).
Defined.

(** ** Categories *)

(** A category is selected and one of its keywords occurs in the
    lower-cased description. *)
Lemma category_applies_iff (selected : list str) (desc : str) (entry : str * list str) :
  bool_decide (entry.1 ∈ selected) &&
  existsb (fun keyword => contains keyword desc) entry.2 = true <->
  entry.1 ∈ selected /\ exists keyword, In keyword entry.2 /\ contains keyword desc = true.
Proof.
  rewrite andb_true_iff, bool_decide_eq_true, existsb_exists. reflexivity.
Qed.

Lemma first_category_find (selected : list str) (desc : str) (cats : list (str * list str)) :
  first_category selected desc cats =
  match List.find (fun entry => bool_decide (entry.1 ∈ selected) &&
                     existsb (fun keyword => contains keyword desc) entry.2) cats with
  | Some entry => entry.1
  | None => lit "Others"
  end.
Proof.
  induction cats as [|[category keywords] cats IH]; simpl; [reflexivity|].
  destruct (bool_decide (category ∈ selected) &&
            existsb (fun keyword => contains keyword desc) keywords); [reflexivity|exact IH].
Qed.

(** The category given to a row is Others, or a selected category with a
    keyword in the description. *)
Lemma assign_category_cases (selected : list str) (description : option str) :
  assign_category selected description = lit "Others" \/
  exists d keywords keyword,
    description = Some d /\
    assign_category selected description ∈ selected /\
    In (assign_category selected description, keywords) categories /\
    In keyword keywords /\ contains keyword (lower d) = true.
Proof.
  destruct description as [d|]; [|left; reflexivity].
  unfold assign_category. rewrite first_category_find.
  destruct (List.find _ categories) as [[category keywords]|] eqn:E; [|left; reflexivity].
  right. pose proof (find_some _ _ E) as [Hin Happ].
  apply (category_applies_iff selected (lower d) (category, keywords)) in Happ
    as [Hsel (keyword & Hk & Hc)].
  exists d, keywords, keyword. auto.
Qed.

(** X7. When Others is among the selected categories, every row of the
    table is retained: a row gets a selected category or Others. *)
Theorem others_selected_keeps_all_rows (selected : list str)
    (descriptions : list (option str)) :
  lit "Others" ∈ selected ->
  map fst (categorize_rows selected descriptions) = descriptions.
Proof.
  intros Hothers. unfold categorize_rows.
  induction descriptions as [|d descriptions IH]; [reflexivity|].
  cbn [map]. rewrite filter_cons. cbn [snd].
  destruct (decide (assign_category selected d ∈ selected)) as [Hin|Hout].
  - cbn [map fst]. now rewrite IH.
  - exfalso. apply Hout.
    destruct (assign_category_cases selected d) as [->|(? & ? & ? & _ & Hsel & _)]; auto.
Qed.

Lemma others_selected_keeps_all_rows_witness :
  map fst (categorize_rows [lit "NEFT"; lit "Others"]
             [Some (lit "NEFT transfer"); None; Some (lit "groceries")]) =
  [Some (lit "NEFT transfer"); None; Some (lit "groceries")].
Proof.
  apply (others_selected_keeps_all_rows [lit "NEFT"; lit "Others"]).
  apply list_elem_of_In. simpl. auto.
Defined.

(** X8. When Others is not selected, a retained row has a description, and
    its category is a selected category of the dictionary with a keyword
    that occurs in the lower-cased description; rows with a missing
    description and rows without such a keyword are dropped. *)
Theorem retained_rows_have_keyword (selected : list str)
    (descriptions : list (option str)) (description : option str) (category : str) :
  lit "Others" ∉ selected ->
  In (description, category) (categorize_rows selected descriptions) ->
  category ∈ selected /\
  exists d keywords keyword,
    description = Some d /\ In (category, keywords) categories /\
    In keyword keywords /\ exists pre post, lower d = pre ++ keyword ++ post.
Proof.
  intros Hothers Hin. unfold categorize_rows in Hin.
  apply list_elem_of_In, list_elem_of_filter in Hin as [Hsel Hin]. cbn [snd] in Hsel.
  apply list_elem_of_fmap in Hin as (d0 & [= -> ->] & _).
  split; [exact Hsel|].
  destruct (assign_category_cases selected d0) as [E|(d & keywords & keyword & H)].
  - rewrite E in Hsel. contradiction.
  - destruct H as (-> & _ & Hcat & Hk & Hc).
    exists d, keywords, keyword. repeat split; auto. now apply contains_spec.
Qed.

Lemma retained_rows_have_keyword_witness :
  lit "Card" ∈ [lit "Card"] /\
  exists d keywords keyword,
    Some (lit "POS Debit Card 4411") = Some d /\ In (lit "Card", keywords) categories /\
    In keyword keywords /\ exists pre post, lower d = pre ++ keyword ++ post.
Proof.
  apply (retained_rows_have_keyword [lit "Card"]
           [Some (lit "UPI payment"); Some (lit "POS Debit Card 4411"); None]).
  - intros Hin. apply list_elem_of_In in Hin. simpl in Hin.
    destruct Hin as [Hin|[]]. discriminate.
  - vm_compute. left. reflexivity.
Defined.

(** X9. The category of a description is that of the first entry of the
    dictionary, in the order UPI, Card, Withdrawal, NEFT, IMPS, RTGS, that
    is selected and has a keyword in the lower-cased description; entries
    that are not selected are passed over, and Others is given when there
    is no such entry. *)
Theorem category_is_first_selected_match (selected : list str) (d : str) :
  map fst categories =
    [lit "UPI"; lit "Card"; lit "Withdrawal"; lit "NEFT"; lit "IMPS"; lit "RTGS";
     lit "Others"] /\
  (forall category keywords before after,
     categories = before ++ (category, keywords) :: after ->
     category ∈ selected ->
     (exists keyword, In keyword keywords /\ contains keyword (lower d) = true) ->
     (forall entry, In entry before ->
        ~ (entry.1 ∈ selected /\
           exists keyword, In keyword entry.2 /\ contains keyword (lower d) = true)) ->
     assign_category selected (Some d) = category) /\
  ((forall entry, In entry categories ->
      ~ (entry.1 ∈ selected /\
         exists keyword, In keyword entry.2 /\ contains keyword (lower d) = true)) ->
   assign_category selected (Some d) = lit "Others").
Proof.
  split; [reflexivity|].
  pose proof (find_first_match _ _ (category_applies_iff selected (lower d)) categories)
    as [Hsome Hnone].
  unfold assign_category. rewrite first_category_find. split.
  - intros category keywords before after Hcats Hsel Hkw Hbefore.
    assert (E : List.find (fun entry => bool_decide (entry.1 ∈ selected) &&
                  existsb (fun keyword => contains keyword (lower d)) entry.2) categories =
                Some (category, keywords)).
    { apply Hsome. exists before, after. auto. }
    now rewrite E.
  - intros Hnot. apply Hnone in Hnot. now rewrite Hnot.
Qed.

Lemma category_is_first_selected_match_witness :
  assign_category [lit "Card"; lit "IMPS"] (Some (lit "UPI to card via IMPS")) = lit "Card".
Proof.
  apply (proj1 (proj2 (category_is_first_selected_match [lit "Card"; lit "IMPS"]
                         (lit "UPI to card via IMPS")))
           (lit "Card") [lit "card"; lit "debit card"; lit "credit card"]
           [(lit "UPI", [lit "upi"; lit "paytm"; lit "google pay"; lit "phonepe"])]
           [(lit "Withdrawal", [lit "atm withdrawal"; lit "cash withdrawal"]);
            (lit "NEFT", [lit "neft"]); (lit "IMPS", [lit "imps"]);
            (lit "RTGS", [lit "rtgs"]); (lit "Others", [])]).
  - reflexivity.
  - apply list_elem_of_In. simpl. auto.
  - exists (lit "card"). split; [simpl; auto|reflexivity].
  - intros entry [<-|[]] [Hin _]. apply list_elem_of_In in Hin. simpl in Hin.
    destruct Hin as [Hin|[Hin|[]]]; discriminate.
Defined.

(** ** The keys of the frequency analysis *)

(** A pattern without a group leaves group 1 as it is. *)
Lemma denotes_no_group (r : regex) :
  has_group r = false ->
  forall bef m aft cap cap', denotes r bef m aft cap cap' -> cap' = cap.
Proof.
  induction r as [|p|r1 IH1 r2 IH2|r1 IH1 r2 IH2|g p lo hi| |r1 IH1]; simpl;
    intros Hg bef m aft cap cap' D.
  - now destruct D.
  - now destruct D.
  - apply orb_false_iff in Hg as [Hg1 Hg2].
    destruct D as (m1 & m2 & cap1 & _ & D1 & D2).
    apply (IH1 Hg1) in D1. apply (IH2 Hg2) in D2. congruence.
  - apply orb_false_iff in Hg as [Hg1 Hg2].
    destruct D as [D|D]; [apply (IH1 Hg1) in D|apply (IH2 Hg2) in D]; exact D.
  - now destruct D.
  - now destruct D.
  - discriminate.
Qed.

(** The group that [str.extract] returns comes from a match in the text. *)
Lemma search_from_sound (r : regex) (rest : str) :
  forall bef tok,
    search_from r bef rest = Some tok ->
    exists pre m aft,
      rev bef ++ rest = pre ++ m ++ aft /\
      denotes r (rev pre) m aft None (Some tok).
Proof.
  induction rest as [|c rest IH]; intros bef tok; simpl.
  - destruct (match_at r bef []) as [[[bef' rest'] cap]|] eqn:E; [|discriminate].
    intros ->. apply match_at_sound in E as (m & Hr & -> & D).
    exists (rev bef), m, rest'. rewrite rev_involutive, <- Hr. auto.
  - destruct (match_at r bef (c :: rest)) as [[[bef' rest'] cap]|] eqn:E.
    + intros ->. apply match_at_sound in E as (m & Hr & -> & D).
      exists (rev bef), m, rest'. rewrite rev_involutive, <- Hr. auto.
    + intros Hs. apply IH in Hs as (pre & m & aft & Heq & D).
      exists pre, m, aft. simpl in Heq. rewrite <- app_assoc in Heq. auto.
Qed.

Lemma mobile_upi_pattern_shape (bef m aft : str) (cap : option str) :
  denotes mobile_upi_pattern bef m aft None cap ->
  cap = Some m /\ is_mobile_or_upi m.
Proof.
  unfold mobile_upi_pattern, at_sign. cbn [denotes seqs].
  intros [[cap1 [D|D]] ->]; (split; [reflexivity|]).
  - destruct D as (m1 & m23 & c1 & -> & [[H1 [Hlo Hhi]] _] & D).
    destruct D as (m2 & m3 & c2 & -> & [(c & -> & Hc) _] & [[H3 W3] _]).
    apply is_char_eq in Hc as ->.
    exists m1, ("@"%char :: m3). repeat split; auto; [lia|].
    right. exists m3. repeat split; auto. eapply within_1_nonempty; eauto.
  - destruct D as [[H1 [Hlo Hhi]] _].
    exists m, []. rewrite app_nil_r. repeat split; auto. lia.
Qed.

Lemma letter_is_letter_or_space (c : ascii) :
  is_letter c = true -> is_letter_or_space c = true.
Proof. unfold is_letter_or_space. intros ->. reflexivity. Qed.

Lemma neft_name_pattern_shape (bef m aft : str) (cap : option str) :
  denotes neft_name_pattern bef m aft None cap ->
  exists name before after,
    cap = Some name /\ m = before ++ name ++ after /\ is_transfer_name name.
Proof.
  unfold neft_name_pattern. cbn [denotes seqs].
  intros (m0 & r0 & c0 & -> & D0 & D).
  apply (denotes_no_group (Alt (Word "NEFT") (Alt (Word "IMPS") (Word "RTGS"))) eq_refl)
    in D0. subst c0.
  destruct D as (m1 & r1 & c1 & -> & [_ ->] & D).
  destruct D as (m2 & r2 & c2 & -> & [_ ->] & D).
  destruct D as (name & r3 & c3 & -> & [[c4 D4] ->] & D).
  destruct D as (m5 & r5 & c5 & -> & [_ ->] & [_ ->]).
  destruct D4 as (l1 & l2 & c6 & -> & [[H1 W1] _] & [[H2 W2] _]).
  exists (l1 ++ l2), (m0 ++ m1 ++ m2), (m5 ++ r5).
  split; [reflexivity|]. split; [now rewrite <- !app_assoc|].
  destruct l1 as [|c l1]; [destruct W1 as [Hlo _]; simpl in Hlo; lia|].
  inversion H1 as [|? ? Hc Hl1]; subst.
  exists c, (l1 ++ l2). repeat split; auto.
  - intros E. apply app_eq_nil in E as [_ E].
    apply (within_1_nonempty _ _ W2). exact E.
  - apply Forall_app. split; [|exact H2].
    eapply Forall_impl; [exact Hl1|]. intros a. apply letter_is_letter_or_space.
Qed.

Lemma mobile_or_upi_nonempty (tok : str) : is_mobile_or_upi tok -> tok <> [].
Proof.
  intros (ds & ls & -> & Hlen & _) E. apply app_eq_nil in E as [-> _]. discriminate.
Qed.

(** X10. The key of a surviving row of the frequency analysis is a
    non-empty piece of the stripped description.  When the name pattern
    matched it is the name, a letter followed by letters and spaces;
    otherwise it is ten digits, alone or followed by [@] and small
    letters. *)
Theorem combined_key_shape (desc key : str) :
  combined_key desc = Some key ->
  key <> [] /\
  (exists pre post, strip desc = pre ++ key ++ post) /\
  ((extracted_names desc = Some key /\ is_transfer_name key) \/
   (extracted_names desc = None /\ extracted_mobile_upi desc = Some key /\
    is_mobile_or_upi key)).
Proof.
  unfold combined_key, combine_first.
  destruct (extracted_names desc) as [name|] eqn:En.
  - intros [= ->]. unfold extracted_names, str_extract in En.
    apply search_from_sound in En as (pre & m & aft & Heq & D).
    apply neft_name_pattern_shape in D as (name & before & after & [= <-] & -> & Hn).
    split; [|split].
    + destruct Hn as (c & rest & -> & _). discriminate.
    + exists (pre ++ before), (after ++ aft). simpl in Heq.
      rewrite Heq, <- !app_assoc. reflexivity.
    + left. auto.
  - intros Em. pose proof Em as Em'. unfold extracted_mobile_upi, str_extract in Em.
    apply search_from_sound in Em as (pre & m & aft & Heq & D).
    apply mobile_upi_pattern_shape in D as [[= <-] Hm].
    split; [|split].
    + now apply mobile_or_upi_nonempty.
    + exists pre, aft. exact Heq.
    + right. auto.
Qed.

Lemma combined_key_shape_witness :
  lit "Ramesh Kumar" <> [] /\
  (exists pre post,
     strip (lit "  NEFT-Ramesh Kumar-AB12345678Z 9876543210 ") =
     pre ++ lit "Ramesh Kumar" ++ post) /\
  ((extracted_names (lit "  NEFT-Ramesh Kumar-AB12345678Z 9876543210 ") =
      Some (lit "Ramesh Kumar") /\ is_transfer_name (lit "Ramesh Kumar")) \/
   (extracted_names (lit "  NEFT-Ramesh Kumar-AB12345678Z 9876543210 ") = None /\
    extracted_mobile_upi (lit "  NEFT-Ramesh Kumar-AB12345678Z 9876543210 ") =
      Some (lit "Ramesh Kumar") /\
    is_mobile_or_upi (lit "Ramesh Kumar"))).
Proof.
  apply (combined_key_shape (lit "  NEFT-Ramesh Kumar-AB12345678Z 9876543210 ")).
  vm_compute. reflexivity.
Defined.

(** ** Ten digits give a key *)

Lemma digit_not_space (c : ascii) : is_digit c = true -> is_space c = false.
Proof.
  destruct c as [[] [] [] [] [] [] [] []]; vm_compute; congruence.
Qed.

(** Stripping on the left keeps a piece that starts with no white space. *)
Lemma lstrip_keeps (pre post : str) (c : ascii) (mid : str) :
  is_space c = false ->
  exists pre', lstrip (pre ++ (c :: mid) ++ post) = pre' ++ (c :: mid) ++ post.
Proof.
  intros Hc. induction pre as [|a pre [pre' IH]]; simpl.
  - rewrite Hc. exists []. reflexivity.
  - destruct (is_space a).
    + exists pre'. exact IH.
    + exists (a :: pre). reflexivity.
Qed.

Lemma strip_keeps (pre mid post : str) (c c' : ascii) (mid' mid'' : str) :
  mid = c :: mid' -> rev mid = c' :: mid'' ->
  is_space c = false -> is_space c' = false ->
  exists pre' post', strip (pre ++ mid ++ post) = pre' ++ mid ++ post'.
Proof.
  intros Hmid Hrev Hc Hc'. unfold strip.
  destruct (lstrip_keeps pre post c mid' Hc) as [pre' E]. rewrite <- Hmid in E.
  rewrite E, !rev_app_distr, <- app_assoc, Hrev.
  destruct (lstrip_keeps (rev post) (rev pre') c' mid'' Hc') as [post' E'].
  rewrite E', !rev_app_distr, rev_involutive, <- Hrev, rev_involutive, <- app_assoc.
  exists pre', (rev post'). reflexivity.
Qed.

Lemma strip_keeps_digits (pre ds post : str) :
  length ds = 10 -> all is_digit ds ->
  exists pre' post', strip (pre ++ ds ++ post) = pre' ++ ds ++ post'.
Proof.
  intros Hlen Hds.
  destruct ds as [|c ds'] eqn:Eds; [discriminate|].
  destruct (rev (c :: ds')) as [|c' ds''] eqn:Erev.
  { apply (f_equal (@length ascii)) in Erev. rewrite length_rev in Erev. discriminate. }
  assert (Hc : is_digit c = true) by now inversion Hds.
  assert (Hc' : is_digit c' = true).
  { assert (Hr : all is_digit (rev (c :: ds'))) by now apply Forall_rev.
    rewrite Erev in Hr. now inversion Hr. }
  eapply strip_keeps; eauto using digit_not_space.
Qed.

(** At a run of ten digits the pattern of the frequency analysis matches. *)
Lemma match_at_ten_digits (bef ds post : str) :
  length ds = 10 -> all is_digit ds ->
  match_at mobile_upi_pattern bef (ds ++ post) <> None.
Proof.
  intros Hlen Hds. unfold match_at, mobile_upi_pattern. cbn [rmatch].
  match goal with |- context [match ?a with Some res => Some res | None => ?b end] =>
    destruct a; [discriminate|] end.
  erewrite rep_greedy_run; [discriminate | exact Hds | | left; now rewrite Hlen | reflexivity].
  rewrite Hlen. split; lia.
Qed.

Lemma search_from_finds (r : regex) (pre : str) :
  forall bef rest,
    (forall bef0 rest0 bef' rest' cap,
       match_at r bef0 rest0 = Some (bef', rest', cap) -> cap <> None) ->
    match_at r (rev pre ++ bef) rest <> None ->
    search_from r bef (pre ++ rest) <> None.
Proof.
  induction pre as [|c pre IH]; intros bef rest Hcap Hm.
  - simpl in *. destruct rest; simpl;
      destruct (match_at r bef _) as [[[bef' rest'] cap]|] eqn:E;
      try contradiction; eapply Hcap; eauto.
  - simpl. destruct (match_at r bef (c :: pre ++ rest)) as [[[bef' rest'] cap]|] eqn:E.
    + eapply Hcap; eauto.
    + apply IH; [exact Hcap|]. simpl in Hm. now rewrite <- app_assoc in Hm.
Qed.

(** X11. A description with ten digits in a row always has a mobile or UPI
    token, so its row gets a key and survives: the number need not stand
    alone, and white space around the description does not matter. *)
Theorem ten_digits_give_a_key (pre ds post : str) :
  length ds = 10 -> all is_digit ds ->
  extracted_mobile_upi (pre ++ ds ++ post) <> None /\
  combined_key (pre ++ ds ++ post) <> None.
Proof.
  intros Hlen Hds.
  assert (Hm : extracted_mobile_upi (pre ++ ds ++ post) <> None).
  { unfold extracted_mobile_upi, str_extract.
    destruct (strip_keeps_digits pre ds post Hlen Hds) as (pre' & post' & ->).
    apply search_from_finds.
    - intros bef0 rest0 bef' rest' cap E.
      apply match_at_sound in E as (m & _ & _ & D).
      apply mobile_upi_pattern_shape in D as [-> _]. discriminate.
    - now apply match_at_ten_digits. }
  split; [exact Hm|]. unfold combined_key, combine_first.
  destruct (extracted_names (pre ++ ds ++ post)); [discriminate|exact Hm].
Qed.

Lemma ten_digits_give_a_key_witness :
  extracted_mobile_upi (lit " ref12345678901234 ") <> None /\
  combined_key (lit " ref12345678901234 ") <> None.
Proof.
  apply (ten_digits_give_a_key (lit " ref1234") (lit "5678901234") (lit " ")).
  - reflexivity.
  - repeat constructor.
Defined.

(** ** One key for a row: what the matcher finds

    The matcher finds a match wherever the pattern has one. *)

Section MatcherComplete.
Context {R : Type}.

Lemma rep_greedy_complete (p : ascii -> bool) (m : str) :
  forall lo hi bef aft (k : str -> str -> option R),
    Forall (fun c => p c = true) m -> within lo hi (length m) ->
    k (rev m ++ bef) aft <> None ->
    rep_greedy p lo hi bef (m ++ aft) k <> None.
Proof.
  induction m as [|c m IH]; intros lo hi bef aft k Hall [Hlo Hhi] Hk.
  - simpl in *. assert (lo = 0) by lia. subst lo.
    destruct aft as [|a aft]; simpl; [exact Hk|].
    destruct (p a && can_take hi); [|exact Hk].
    destruct (rep_greedy p _ _ _ _ _); [discriminate|exact Hk].
  - inversion Hall as [|? ? Hc Hm]; subst. simpl.
    assert (Hcan : can_take hi = true).
    { destruct hi as [[|h]|]; simpl in *; auto; lia. }
    rewrite Hc, Hcan. simpl.
    assert (Hrec : rep_greedy p (Nat.pred lo) (dec_hi hi) (c :: bef) (m ++ aft) k <> None).
    { apply IH; [exact Hm| |].
      - split; [simpl in Hlo; lia|]. destruct hi as [h|]; simpl in *; [lia|exact I].
      - rewrite <- rev_cons_app. exact Hk. }
    destruct (rep_greedy p (Nat.pred lo) (dec_hi hi) (c :: bef) (m ++ aft) k);
      [discriminate|contradiction].
Qed.

Lemma rep_lazy_complete (p : ascii -> bool) (m : str) :
  forall lo hi bef aft (k : str -> str -> option R),
    Forall (fun c => p c = true) m -> within lo hi (length m) ->
    k (rev m ++ bef) aft <> None ->
    rep_lazy p lo hi bef (m ++ aft) k <> None.
Proof.
  induction m as [|c m IH]; intros lo hi bef aft k Hall [Hlo Hhi] Hk.
  - simpl in *. assert (lo = 0) by lia. subst lo.
    destruct aft as [|a aft]; simpl; destruct (k bef _); try discriminate; contradiction.
  - inversion Hall as [|? ? Hc Hm]; subst.
    assert (Hcan : can_take hi = true).
    { destruct hi as [[|h]|]; simpl in *; auto; lia. }
    assert (Hrec : rep_lazy p (Nat.pred lo) (dec_hi hi) (c :: bef) (m ++ aft) k <> None).
    { apply IH; [exact Hm| |].
      - split; [simpl in Hlo; lia|]. destruct hi as [h|]; simpl in *; [lia|exact I].
      - rewrite <- rev_cons_app. exact Hk. }
    simpl. rewrite Hc, Hcan. simpl.
    destruct lo; [|exact Hrec].
    destruct (k bef (c :: m ++ aft)); [discriminate|exact Hrec].
Qed.

(** The matcher finds a match wherever there is one. *)
Lemma rmatch_complete (r : regex) :
  forall bef m aft cap cap' (k : str -> str -> option str -> option R),
    denotes r bef m aft cap cap' ->
    k (rev m ++ bef) aft cap' <> None ->
    rmatch r bef (m ++ aft) cap k <> None.
Proof.
  induction r as [|p|r1 IH1 r2 IH2|r1 IH1 r2 IH2|g p lo hi| |r1 IH1];
    intros bef m aft cap cap' k D Hk; simpl in D |- *.
  - destruct D as [-> ->]. exact Hk.
  - destruct D as [(c & -> & Hc) ->]. simpl. rewrite Hc. exact Hk.
  - destruct D as (m1 & m2 & cap1 & -> & D1 & D2).
    rewrite <- app_assoc. eapply IH1; [exact D1|].
    eapply IH2; [exact D2|]. rewrite rev_app_distr, <- app_assoc in Hk. exact Hk.
  - destruct D as [D|D].
    + pose proof (IH1 _ _ _ _ _ k D Hk) as H1.
      destruct (rmatch r1 bef (m ++ aft) cap k); [discriminate|contradiction].
    + destruct (rmatch r1 bef (m ++ aft) cap k); [discriminate|].
      eapply IH2; eauto.
  - destruct D as [[Hall Hw] ->].
    destruct g; [apply rep_greedy_complete|apply rep_lazy_complete]; auto.
  - destruct D as [[-> Hx] ->]. simpl. rewrite Hx. exact Hk.
  - destruct D as [[cap1 D] ->].
    eapply IH1; [exact D|]. rewrite matched_app. exact Hk.
Qed.
End MatcherComplete.

Lemma match_at_complete (r : regex) (bef m aft : str) (cap : option str) :
  denotes r bef m aft None cap -> match_at r bef (m ++ aft) <> None.
Proof.
  intros D. unfold match_at. eapply rmatch_complete; [exact D|discriminate].
Qed.

Lemma denotes_method (bef m aft : str) (cap cap' : option str) :
  denotes (Alt (Word "NEFT") (Alt (Word "IMPS") (Word "RTGS"))) bef m aft cap cap' <->
  (m = lit "NEFT" \/ m = lit "IMPS" \/ m = lit "RTGS") /\ cap' = cap.
Proof.
  unfold Word, lit. cbn [denotes seqs map list_ascii_of_string]. split.
  - intros [D|[D|D]];
      destruct D as (m1 & r1 & c1 & -> & [(a1 & -> & H1) ->] & D);
      destruct D as (m2 & r2 & c2 & -> & [(a2 & -> & H2) ->] & D);
      destruct D as (m3 & m4 & c3 & -> & [(a3 & -> & H3) ->] & [(a4 & -> & H4) ->]);
      apply is_char_eq in H1, H2, H3, H4; subst; auto.
  - intros [[ -> | [ -> | -> ]] ->]; [left|right; left|right; right];
      (eexists [_], _, _; split; [reflexivity|]; split; [split; [eexists; split; reflexivity|reflexivity]|]);
      (eexists [_], _, _; split; [reflexivity|]; split; [split; [eexists; split; reflexivity|reflexivity]|]);
      (eexists [_], _, _; split; [reflexivity|]; split; [split; [eexists; split; reflexivity|reflexivity]|]);
      (split; [eexists; split; reflexivity|reflexivity]).
Qed.

Lemma neft_name_pattern_match (bef m aft : str) (cap : option str) :
  denotes neft_name_pattern bef m aft None cap <->
  exists method gap name ref,
    m = method ++ gap ++ "-"%char :: name ++ "-"%char :: ref /\
    cap = Some name /\
    (method = lit "NEFT" \/ method = lit "IMPS" \/ method = lit "RTGS") /\
    all not_newline gap /\ is_transfer_name name /\
    length ref = 11 /\ all is_upper_or_digit ref.
Proof.
  unfold neft_name_pattern.
  change (seqs [?a; ?b; ?c; ?d; ?e; ?f]) with (Seq a (Seq b (Seq c (Seq d (Seq e f))))).
  cbn [denotes]. split.
  - intros (m0 & r0 & c0 & -> & D0 & D).
    apply denotes_method in D0 as [Hmethod ->].
    destruct D as (gap & r1 & c1 & -> & [[Hgap _] ->] & D).
    destruct D as (m2 & r2 & c2 & -> & [(h & -> & Hh) ->] & D).
    destruct D as (name & r3 & c3 & -> & [[c4 D4] ->] & D).
    destruct D as (m5 & ref & c5 & -> & [(h' & -> & Hh') ->] & [[Href [Hlo Hhi]] ->]).
    destruct D4 as (l1 & l2 & c6 & -> & [[H1 W1] _] & [[H2 W2] _]).
    apply is_char_eq in Hh, Hh'. subst.
    exists m0, gap, (l1 ++ l2), ref. split; [reflexivity|]. split; [reflexivity|].
    repeat split; auto; [|lia].
    destruct l1 as [|c l1]; [destruct W1 as [Hlo' _]; simpl in Hlo'; lia|].
    inversion H1 as [|? ? Hc Hl1]; subst.
    exists c, (l1 ++ l2). repeat split; auto.
    + intros E. apply app_eq_nil in E as [_ E].
      apply (within_1_nonempty _ _ W2). exact E.
    + apply Forall_app. split; [|exact H2].
      eapply Forall_impl; [exact Hl1|]. intros a. apply letter_is_letter_or_space.
  - intros (method & gap & name & ref & -> & -> & Hmethod & Hgap & Hname & Hlen & Href).
    destruct Hname as (c & rest & -> & Hc & Hne & Hrest).
    exists method, (gap ++ "-"%char :: (c :: rest) ++ "-"%char :: ref), None.
    split; [reflexivity|]. split; [apply denotes_method; auto|].
    exists gap, ("-"%char :: (c :: rest) ++ "-"%char :: ref), None.
    split; [reflexivity|]. split.
    { split; [|reflexivity]. split; [exact Hgap|]. split; [lia|exact I]. }
    exists ["-"%char], ((c :: rest) ++ "-"%char :: ref), None.
    split; [reflexivity|]. split.
    { split; [|reflexivity]. exists "-"%char. split; reflexivity. }
    exists (c :: rest), ("-"%char :: ref), (Some (c :: rest)).
    split; [reflexivity|]. split.
    { split; [|reflexivity]. exists None.
      exists [c], rest, None. split; [reflexivity|]. split.
      - split; [|reflexivity]. split; [repeat constructor; exact Hc|]. split; [simpl; lia|exact I].
      - split; [|reflexivity]. split; [exact Hrest|]. split; [|exact I].
        destruct rest; [contradiction|simpl; lia]. }
    exists ["-"%char], ref, (Some (c :: rest)).
    split; [reflexivity|]. split.
    { split; [|reflexivity]. exists "-"%char. split; reflexivity. }
    split; [|reflexivity]. split; [exact Href|]. rewrite Hlen. split; lia.
Qed.

Lemma neft_name_pattern_group (bef0 rest0 bef' rest' : str) (cap : option str) :
  match_at neft_name_pattern bef0 rest0 = Some (bef', rest', cap) -> cap <> None.
Proof.
  intros E. apply match_at_sound in E as (m & _ & _ & D).
  apply neft_name_pattern_match in D as (? & ? & ? & ? & _ & -> & _). discriminate.
Qed.

Lemma mobile_upi_pattern_group (bef0 rest0 bef' rest' : str) (cap : option str) :
  match_at mobile_upi_pattern bef0 rest0 = Some (bef', rest', cap) -> cap <> None.
Proof.
  intros E. apply match_at_sound in E as (m & _ & _ & D).
  apply mobile_upi_pattern_shape in D as [-> _]. discriminate.
Qed.

(** Where the name pattern has a match, a name is extracted. *)
Lemma extracted_names_iff (desc : str) :
  (forall name, extracted_names desc = Some name -> transfer_name_in (strip desc) name) /\
  (extracted_names desc = None <-> forall name, ~ transfer_name_in (strip desc) name).
Proof.
  unfold extracted_names, str_extract.
  assert (Hsound : forall name, search_from neft_name_pattern [] (strip desc) = Some name ->
            transfer_name_in (strip desc) name).
  { intros name E. apply search_from_sound in E as (pre & m & aft & Heq & D).
    apply neft_name_pattern_match in D
      as (method & gap & name' & ref & -> & [= <-] & Hm & Hg & Hn & Hl & Hr).
    exists pre, method, gap, ref, aft. simpl in Heq. rewrite Heq, <- !app_assoc.
    simpl. rewrite <- !app_assoc. simpl. auto 10. }
  split; [exact Hsound|]. split.
  - intros E name (pre & method & gap & ref & post & Heq & Hm & Hg & Hn & Hl & Hr).
    revert E. rewrite Heq.
    replace (pre ++ method ++ gap ++ "-"%char :: name ++ "-"%char :: ref ++ post)
      with (pre ++ (method ++ gap ++ "-"%char :: name ++ "-"%char :: ref) ++ post)
      by (rewrite <- !app_assoc; simpl; rewrite <- !app_assoc; reflexivity).
    apply search_from_finds; [apply neft_name_pattern_group|].
    apply (match_at_complete _ _ _ _ (Some name)).
    apply neft_name_pattern_match. exists method, gap, name, ref. auto 10.
  - intros Hno. destruct (search_from neft_name_pattern [] (strip desc)) as [name|] eqn:E;
      [|reflexivity].
    exfalso. apply (Hno name), Hsound. reflexivity.
Qed.

Lemma extracted_mobile_upi_iff (desc : str) :
  (forall tok, extracted_mobile_upi desc = Some tok -> mobile_or_upi_in (strip desc) tok) /\
  (extracted_mobile_upi desc = None <-> forall tok, ~ mobile_or_upi_in (strip desc) tok).
Proof.
  unfold extracted_mobile_upi, str_extract.
  assert (Hsound : forall tok, search_from mobile_upi_pattern [] (strip desc) = Some tok ->
            mobile_or_upi_in (strip desc) tok).
  { intros tok E. apply search_from_sound in E as (pre & m & aft & Heq & D).
    apply mobile_upi_pattern_shape in D as [[= <-] Hm].
    exists pre, aft. auto. }
  split; [exact Hsound|]. split.
  - intros E tok (pre & post & Heq & ds & ls & -> & Hlen & Hds & _).
    revert E. rewrite Heq, <- app_assoc.
    apply search_from_finds; [apply mobile_upi_pattern_group|].
    now apply match_at_ten_digits.
  - intros Hno. destruct (search_from mobile_upi_pattern [] (strip desc)) as [tok|] eqn:E;
      [|reflexivity].
    exfalso. apply (Hno tok), Hsound. reflexivity.
Qed.

(** C10. In the frequency analysis every row has at most one key, and the
    rows with a key are the rows that survive, each with that key alone.
    The key is a transfer name found in the stripped description whenever
    the name pattern matches somewhere in it, also when a mobile number or
    UPI token is there too; it is a mobile number or UPI token when no
    transfer name is found and such a token is; and the row has no key, and
    is dropped, exactly when neither is found. *)
Theorem frequency_one_key_per_row (file : str) (descs : list str) :
  (forall desc,
     match combined_key desc with
     | Some key =>
         transfer_name_in (strip desc) key \/
         ((forall name, ~ transfer_name_in (strip desc) name) /\
          mobile_or_upi_in (strip desc) key)
     | None =>
         (forall name, ~ transfer_name_in (strip desc) name) /\
         (forall tok, ~ mobile_or_upi_in (strip desc) tok)
     end) /\
  frequency_rows file descs =
  flat_map (fun desc =>
              match combined_key desc with
              | Some key => [(key, file)]
              | None => []
              end) descs.
Proof.
  split.
  - intros desc. unfold combined_key, combine_first.
    destruct (extracted_names_iff desc) as [Hn Hnn].
    destruct (extracted_mobile_upi_iff desc) as [Hm Hnm].
    destruct (extracted_names desc) as [name|].
    + left. now apply Hn.
    + assert (Hno : forall name, ~ transfer_name_in (strip desc) name) by now apply Hnn.
      destruct (extracted_mobile_upi desc) as [tok|].
      * right. split; [exact Hno|]. now apply Hm.
      * split; [exact Hno|]. now apply Hnm.
  - induction descs as [|desc descs IH]; simpl; [reflexivity|].
    destruct (combined_key desc); simpl; now rewrite IH.
Qed.

Lemma frequency_one_key_per_row_witness :
  let desc := lit "NEFT-Ramesh Kumar-AB12345678Z 9876543210" in
  combined_key desc = Some (lit "Ramesh Kumar") /\
  mobile_or_upi_in (strip desc) (lit "9876543210") /\
  (transfer_name_in (strip desc) (lit "Ramesh Kumar") \/
   ((forall name, ~ transfer_name_in (strip desc) name) /\
    mobile_or_upi_in (strip desc) (lit "Ramesh Kumar"))).
Proof.
  intros desc.
  assert (E : combined_key desc = Some (lit "Ramesh Kumar")) by (vm_compute; reflexivity).
  split; [exact E|]. split.
  - exists (lit "NEFT-Ramesh Kumar-AB12345678Z "), [].
    split; [vm_compute; reflexivity|].
    exists (lit "9876543210"), []. repeat split; auto. repeat constructor.
  - pose proof (proj1 (frequency_one_key_per_row [] []) desc) as Hkey.
    rewrite E in Hkey. exact Hkey.
Defined.

(** ** The common keys of the frequency analysis *)

Lemma filter_key_of_counted (count : list ascii -> nat) (l : list (str * str)) (key : str) :
  1 < count key ->
  filter (fun r => r.1 = key) (filter (fun r => 1 < count r.1) l) =
  filter (fun r => r.1 = key) l.
Proof.
  intros Hcount. induction l as [|r l IH]; [reflexivity|].
  rewrite !filter_cons.
  destruct (decide (r.1 = key)) as [E|E].
  - rewrite decide_True by (rewrite E; exact Hcount).
    rewrite filter_cons, decide_True by exact E. now rewrite IH.
  - destruct (decide (1 < count r.1)); [rewrite filter_cons, decide_False by exact E|];
      exact IH.
Qed.

Lemma frequency_count_common_rows (combined : list (str * str)) (key : str) :
  1 < frequency_count combined key ->
  filter (fun r => r.1 = key) (common_rows combined) =
  filter (fun r => r.1 = key) combined.
Proof. intros Hkey. unfold common_rows. now apply filter_key_of_counted. Qed.

Lemma length_filter_common_data (combined : list (str * str)) (key : str) :
  length (filter (fun row => row.1.1 = key) (common_data combined)) =
  length (filter (fun r => r.1 = key) (common_rows combined)).
Proof.
  unfold common_data. induction (common_rows combined) as [|r l IH]; [reflexivity|].
  cbn [map]. rewrite !filter_cons. cbn [fst].
  destruct (decide (r.1 = key)); simpl; now rewrite IH.
Qed.

(** X12. Every row written by the frequency analysis is a row of the
    combined data; its Frequency is the number of rows with its key in all
    files together, rows of one file included, is at least 2, and is also
    the number of written rows with that key. *)
Theorem common_data_frequencies (combined : list (str * str))
    (key file : str) (n : nat) :
  In (key, file, n) (common_data combined) ->
  In (key, file) combined /\
  n = frequency_count combined key /\
  2 <= n /\
  n = length (filter (fun row => row.1.1 = key) (common_data combined)).
Proof.
  intros Hin. unfold common_data in Hin.
  apply in_map_iff in Hin as ([k f] & [= -> -> <-] & Hin).
  apply list_elem_of_In in Hin. unfold common_rows in Hin.
  apply list_elem_of_filter in Hin as [Hcount Hin]. cbn [fst] in Hcount.
  repeat split.
  - now apply list_elem_of_In.
  - lia.
  - rewrite length_filter_common_data, frequency_count_common_rows by exact Hcount.
    reflexivity.
Qed.

Lemma common_data_frequencies_witness :
  In (lit "9876543210", lit "a.xlsx")
     [(lit "9876543210", lit "a.xlsx"); (lit "Ramesh Kumar", lit "a.xlsx");
      (lit "9876543210", lit "a.xlsx")] /\
  2 = frequency_count
        [(lit "9876543210", lit "a.xlsx"); (lit "Ramesh Kumar", lit "a.xlsx");
         (lit "9876543210", lit "a.xlsx")] (lit "9876543210") /\
  2 <= 2 /\
  2 = length (filter (fun row => row.1.1 = lit "9876543210")
               (common_data
                  [(lit "9876543210", lit "a.xlsx"); (lit "Ramesh Kumar", lit "a.xlsx");
                   (lit "9876543210", lit "a.xlsx")])).
Proof.
  apply (common_data_frequencies
           [(lit "9876543210", lit "a.xlsx"); (lit "Ramesh Kumar", lit "a.xlsx");
            (lit "9876543210", lit "a.xlsx")] (lit "9876543210") (lit "a.xlsx") 2).
  vm_compute. left. reflexivity.
Defined.

Lemma common_keys_nil (combined : list (str * str)) :
  common_keys combined = [] <-> forall key, frequency_count combined key <= 1.
Proof.
  unfold common_keys. split.
  - intros Hnil key.
    destruct (le_lt_dec (frequency_count combined key) 1) as [Hle|Hlt]; [exact Hle|].
    exfalso.
    assert (Hne : filter (fun r => r.1 = key) combined <> []).
    { intros E. unfold frequency_count in Hlt. rewrite E in Hlt. simpl in Hlt. lia. }
    destruct (filter (fun r => r.1 = key) combined) as [|r l] eqn:E; [contradiction|].
    assert (Hr : r ∈ filter (fun r => r.1 = key) combined) by (rewrite E; left).
    apply list_elem_of_filter in Hr as [Hk Hr].
    assert (Hc : r.1 ∈ remove_dups (map fst (common_rows combined))).
    { apply elem_of_remove_dups, list_elem_of_fmap. exists r. split; [reflexivity|].
      apply list_elem_of_filter. split; [now rewrite Hk|exact Hr]. }
    rewrite Hnil in Hc. inversion Hc.
  - intros Hle.
    destruct (remove_dups (map fst (common_rows combined))) as [|k l] eqn:E; [reflexivity|].
    assert (Hk : k ∈ remove_dups (map fst (common_rows combined))) by (rewrite E; left).
    apply elem_of_remove_dups, list_elem_of_fmap in Hk as (r & -> & Hr).
    apply list_elem_of_filter in Hr as [Hcount _]. specialize (Hle r.1). lia.
Qed.

Lemma common_keys_single (combined : list (str * str)) (key : str) :
  common_keys combined = [key] <->
  common_rows combined <> [] /\ forall r, In r (common_rows combined) -> r.1 = key.
Proof.
  unfold common_keys. split.
  - intros Hk. split.
    + intros E. rewrite E in Hk. discriminate.
    + intros r Hr.
      assert (Hin : r.1 ∈ remove_dups (map fst (common_rows combined))).
      { apply elem_of_remove_dups, list_elem_of_fmap. exists r.
        split; [reflexivity|now apply list_elem_of_In]. }
      rewrite Hk in Hin. apply list_elem_of_singleton in Hin. exact Hin.
  - intros [Hne Hall].
    assert (Hkeys : forall k, k ∈ remove_dups (map fst (common_rows combined)) -> k = key).
    { intros k Hk. apply elem_of_remove_dups, list_elem_of_fmap in Hk as (r & -> & Hr).
      apply Hall. now apply list_elem_of_In. }
    pose proof (NoDup_remove_dups (map fst (common_rows combined))) as Hnd.
    destruct (remove_dups (map fst (common_rows combined))) as [|k [|k' l]] eqn:E.
    + exfalso. destruct (common_rows combined) as [|r l]; [contradiction|].
      assert (Hr : r.1 ∈ remove_dups (map fst (r :: l))).
      { apply elem_of_remove_dups. left. }
      rewrite E in Hr. inversion Hr.
    + f_equal. apply Hkeys. left.
    + exfalso. assert (k = key) by (apply Hkeys; left).
      assert (k' = key) by (apply Hkeys; right; left). subst.
      inversion Hnd as [|? ? Hnotin _]. apply Hnotin. left.
Qed.

Lemma common_data_nil (combined : list (str * str)) :
  common_data combined = [] <-> common_rows combined = [].
Proof.
  unfold common_data. destruct (common_rows combined); simpl; split; congruence.
Qed.

Section FrequencyRequest.
Context {amount : Type}.

(** X13. The message that names a single common key is given exactly when
    all written rows have one and the same key; the workbook then written,
    like the one of several keys, is never empty. *)
Theorem single_common_key_message (files : list (upload amount))
    (single : option str) (data : list (str * str * nat)) :
  frequency_analysis files = FrequencyCommonKeys single data ->
  data <> [] /\
  forall key, single = Some key <-> forall row, In row data -> row.1.1 = key.
Proof.
  unfold frequency_analysis.
  destruct (forallb _ files); [discriminate|].
  destruct (omap frequency_file files) as [|frame frames]; [discriminate|].
  set (combined := concat (frame :: frames)).
  assert (Hrows : forall key,
            (forall row, In row (common_data combined) -> row.1.1 = key) <->
            (forall r, In r (common_rows combined) -> r.1 = key)).
  { intros key. unfold common_data. split.
    - intros Hall r Hr. apply (Hall (r.1, r.2, frequency_count combined r.1)).
      apply in_map_iff. exists r. auto.
    - intros Hall row Hrow. apply in_map_iff in Hrow as (r & <- & Hr).
      cbn [fst]. now apply Hall. }
  destruct (common_keys combined) as [|k [|k' keys]] eqn:E; [discriminate| |];
    intros [= <- <-].
  - apply common_keys_single in E as [Hne Hall]. split.
    + now rewrite common_data_nil.
    + intros key. rewrite Hrows. split.
      * intros [= <-]. exact Hall.
      * intros Hkey. f_equal. destruct (common_rows combined) as [|r l]; [contradiction|].
        rewrite <- (Hall r), <- (Hkey r); simpl; auto.
  - assert (Hne : common_rows combined <> []).
    { intros En. unfold common_keys in E. rewrite En in E. discriminate. }
    split; [now rewrite common_data_nil|].
    intros key. split; [discriminate|]. rewrite Hrows. intros Hall. exfalso.
    assert (Es : common_keys combined = [key])
      by (apply common_keys_single; auto).
    rewrite Es in E. discriminate.
Qed.

Lemma not_counted_twice (combined : list (str * str)) :
  (forall key, frequency_count combined key <= 1) \/
  (exists key, 2 <= frequency_count combined key).
Proof.
  destruct (decide (Exists (fun r : list ascii * list ascii =>
                              1 < frequency_count combined r.1) combined)) as [Hex|Hno].
  - right. apply Exists_exists in Hex as (r & _ & Hr). exists r.1. lia.
  - left. intros key.
    destruct (le_lt_dec (frequency_count combined key) 1) as [Hl|Hl]; [exact Hl|].
    exfalso. unfold frequency_count in Hl.
    destruct (filter (fun r => r.1 = key) combined) as [|r l] eqn:E; [simpl in Hl; lia|].
    assert (Hr : r ∈ filter (fun r => r.1 = key) combined) by (rewrite E; left).
    apply list_elem_of_filter in Hr as [Hk Hr].
    apply Hno, Exists_exists. exists r. split; [exact Hr|].
    rewrite Hk. unfold frequency_count. rewrite E. exact Hl.
Qed.

End FrequencyRequest.

Lemma single_common_key_message_witness :
  common_data (concat (omap frequency_file [statement_a; statement_b])) <> [] /\
  forall key,
    Some (lit "9876543210@ybl") = Some key <->
    forall row,
      In row (common_data (concat (omap frequency_file [statement_a; statement_b]))) ->
      row.1.1 = key.
Proof.
  apply (single_common_key_message [statement_a; statement_b]).
  vm_compute. reflexivity.
Defined.

(** ** The common-names analysis: sheets, order, skipped tables, rows *)

(** X19. Every identity token of a narration occurs in it, verbatim. *)
Theorem identity_occurs_in_narration (text tok : str) :
  tok ∈ (extract_names_and_upi text).2 ->
  exists pre post, text = pre ++ tok ++ post.
Proof.
  rewrite identities_elem. intros [Hin|Hin];
    apply findall_sound in Hin as (pre & m & aft & cap & -> & D & ->).
  - apply upi_pattern_shape in D as [-> _]. exists pre, aft. reflexivity.
  - exists pre, aft. reflexivity.
Qed.

Lemma identity_occurs_in_narration_witness :
  exists pre post, lit "sent to Ramesh Kumar today" = pre ++ lit "Ramesh Kumar" ++ post.
Proof.
  apply (identity_occurs_in_narration (lit "sent to Ramesh Kumar today")).
  apply identities_elem. right. vm_compute. left. reflexivity.
Defined.

Section CommonNamesMore.
Context {amount : Type} `{PyNumeric amount}.

Lemma fold_add_item_full (file text : str) (amt : amount) (ttype : option str)
    (items : list str) :
  forall st : acc amount,
    full_transaction_data (fold_left (add_item file text amt ttype) items st) =
    full_transaction_data st ++ map (record_of file text amt ttype) items.
Proof.
  induction items as [|item items IH]; intros st; simpl.
  - now rewrite app_nil_r.
  - rewrite IH. unfold add_item. cbn [full_transaction_data].
    now rewrite <- app_assoc.
Qed.

Lemma process_row_full file desc_col amount_col (st : acc amount) row :
  full_transaction_data (process_row file desc_col amount_col st row) =
  full_transaction_data st ++
  full_transaction_data (process_row file desc_col amount_col empty_acc row).
Proof.
  unfold process_row.
  destruct (isna (cell_num (row amount_col)) || eq_zero (cell_num (row amount_col))).
  - simpl. now rewrite app_nil_r.
  - destruct (extract_names_and_upi (cell_str (row desc_col))) as [ttype ids].
    now rewrite !fold_add_item_full.
Qed.

Lemma fold_process_row_full file desc_col amount_col (table : list (str -> cell amount)) :
  forall st : acc amount,
    full_transaction_data (fold_left (process_row file desc_col amount_col) table st) =
    full_transaction_data st ++
    full_transaction_data
      (fold_left (process_row file desc_col amount_col) table empty_acc).
Proof.
  induction table as [|row table IH]; intros st; simpl.
  - now rewrite app_nil_r.
  - rewrite IH, (IH (process_row _ _ _ empty_acc row)), process_row_full.
    now rewrite <- app_assoc.
Qed.

Lemma process_file_full (st : acc amount) (file : upload amount) :
  full_transaction_data (process_file st file) =
  full_transaction_data st ++ file_records file.
Proof.
  unfold file_records, process_file.
  destruct (first_column (columns (df file)) description_columns);
    [|simpl; now rewrite app_nil_r].
  destruct (first_column (columns (df file)) amount_columns);
    [|simpl; now rewrite app_nil_r].
  apply fold_process_row_full.
Qed.

Lemma fold_process_file_full (files : list (upload amount)) :
  forall st : acc amount,
    full_transaction_data (fold_left process_file files st) =
    full_transaction_data st ++ flat_map file_records files.
Proof.
  induction files as [|file files IH]; intros st; simpl.
  - now rewrite app_nil_r.
  - now rewrite IH, process_file_full, <- app_assoc.
Qed.

(** The records are those of the files, one file after the other. *)
Lemma process_files_full (files : list (upload amount)) :
  full_transaction_data (process_files files) = flat_map file_records files.
Proof. unfold process_files. now rewrite fold_process_file_full. Qed.

Lemma counts_from_lengths (st st' : acc amount) :
  acc_inv st -> acc_inv st' ->
  (forall name, length (records_of name (full_transaction_data st)) =
                length (records_of name (full_transaction_data st'))) ->
  name_counts st = name_counts st'.
Proof.
  intros Hinv Hinv' Hlen. apply map_eq. intros name.
  destruct (Hinv name) as [-> _]. destruct (Hinv' name) as [-> _].
  specialize (Hlen name).
  destruct (records_of name (full_transaction_data st)),
           (records_of name (full_transaction_data st')); simpl in *; congruence.
Qed.

(** X16. The counts do not depend on the order in which the files are
    uploaded: the same files in another order give the same count for every
    identity, the same common names, and the same records up to order. *)
Theorem counts_ignore_file_order (files files' : list (upload amount)) :
  Permutation files files' ->
  name_counts (process_files files) = name_counts (process_files files') /\
  common_names_list (process_files files) = common_names_list (process_files files') /\
  Permutation (full_transaction_data (process_files files))
              (full_transaction_data (process_files files')).
Proof.
  intros Hperm.
  assert (Hfull : Permutation (full_transaction_data (process_files files))
                              (full_transaction_data (process_files files'))).
  { rewrite !process_files_full. now apply Permutation_flat_map. }
  assert (Hcounts : name_counts (process_files files) = name_counts (process_files files')).
  { apply counts_from_lengths; try apply process_files_inv.
    intros name. unfold records_of. apply Permutation_length.
    now apply filter_Permutation. }
  split; [exact Hcounts|]. split; [|exact Hfull].
  unfold common_names_list. now rewrite Hcounts.
Qed.

Lemma fold_add_item_count (file text : str) (amt : amount) (ttype : option str)
    (name : str) (items : list str) :
  NoDup items ->
  forall st : acc amount,
    default 0 (name_counts (fold_left (add_item file text amt ttype) items st) !! name) =
    default 0 (name_counts st !! name) + (if decide (name ∈ items) then 1 else 0).
Proof.
  induction items as [|item items IH]; intros Hnd st; cbn [fold_left].
  - rewrite decide_False by (intros Hin; inversion Hin). lia.
  - inversion Hnd as [|? ? Hnotin Hnd']; subst. rewrite (IH Hnd').
    unfold add_item. cbn [name_counts].
    destruct (decide (item = name)) as [->|Hne].
    + rewrite lookup_insert_eq. simpl.
      rewrite (decide_False (P := name ∈ items)) by exact Hnotin.
      rewrite decide_True by left. lia.
    + rewrite lookup_insert_ne by exact Hne.
      destruct (decide (name ∈ items)) as [Hin|Hout].
      * rewrite decide_True by (right; exact Hin). reflexivity.
      * rewrite decide_False; [reflexivity|].
        intros Hin. apply elem_of_cons in Hin as [->|Hin]; contradiction.
Qed.

(** X18. A row with a valid amount raises the count of each identity token
    of its narration by exactly one, however often the token occurs in the
    narration, and leaves every other count as it was. *)
Theorem row_counts_each_token_once (file desc_col amount_col : str)
    (st : acc amount) (row : str -> cell amount) (name : str) :
  isna (cell_num (row amount_col)) = false ->
  eq_zero (cell_num (row amount_col)) = false ->
  default 0 (name_counts (process_row file desc_col amount_col st row) !! name) =
  default 0 (name_counts st !! name) +
  (if decide (name ∈ (extract_names_and_upi (cell_str (row desc_col))).2) then 1 else 0).
Proof.
  intros Hna Hz. unfold process_row. rewrite Hna, Hz. cbn [orb].
  destruct (extract_names_and_upi (cell_str (row desc_col))) as [ttype ids]. cbn [snd].
  rewrite fold_add_item_count by apply NoDup_elements.
  destruct (decide (name ∈ elements ids)) as [Hin|Hout].
  - rewrite decide_True; [reflexivity|]. now apply elem_of_elements.
  - rewrite decide_False; [reflexivity|]. intros Hin. apply Hout. now apply elem_of_elements.
Qed.

(** X15. The sheets of the workbook agree.  [Transaction Details] has a row
    for exactly the identities with a record, singletons included; its
    [Total Transactions] is the number of records of the identity in [Full
    Transaction Details], its [Total Amount] the sum of those of their
    amounts that are instances of [int] or [float]; [Common Names] lists
    the identity, with the same number, exactly when that number is above
    1, and is not empty. *)
Theorem workbook_sheets_agree (files : list (upload amount))
    (common_df : gmap str nat) (transaction_df : gmap str (summary amount))
    (full_transaction_df : list (full_txn amount)) :
  common_names files = Workbook common_df transaction_df full_transaction_df ->
  common_df <> ∅ /\
  forall name,
    let recs := records_of name full_transaction_df in
    match transaction_df !! name with
    | None => recs = [] /\ common_df !! name = None
    | Some s =>
        recs <> [] /\
        total_transactions s = length recs /\
        total_amount s =
          py_sum (filter (fun a => is_int_or_float a = true) (map ft_amount recs)) /\
        common_df !! name =
          if decide (1 < length recs) then Some (length recs) else None
    end.
Proof.
  unfold common_names. destruct files as [|file files]; [discriminate|].
  set (st := process_files (file :: files)). unfold report.
  destruct (decide (common_names_list st = ∅)) as [|Hne]; [discriminate|].
  intros [= <- <- <-]. split; [exact Hne|]. intros name. cbv zeta.
  set (recs := records_of name (full_transaction_data st)).
  destruct (process_files_inv (file :: files)) as [Hinv _]. fold st in Hinv.
  assert (Hcommon : common_names_list st !! name =
                    if decide (1 < length recs) then Some (length recs) else None).
  { destruct (common_names_list st !! name) as [n|] eqn:E.
    - apply common_names_list_lookup in E as [-> Hn]; [|exact Hinv].
      fold recs. now rewrite decide_True.
    - destruct (decide (1 < length recs)) as [Hlt|]; [|reflexivity].
      assert (E' : common_names_list st !! name = Some (length recs)).
      { apply common_names_list_lookup; auto. }
      congruence. }
  destruct (Hinv name) as [_ Hd]. fold recs in Hd.
  rewrite lookup_fmap, Hd. destruct recs as [|r l] eqn:Er.
  - simpl. split; [reflexivity|]. rewrite Hcommon. reflexivity.
  - cbn [fmap option_fmap option_map]. split; [discriminate|].
    unfold summarize. cbn [total_transactions total_amount].
    split; [now rewrite length_fmap|]. split; [|exact Hcommon].
    do 2 f_equal. rewrite <- list_fmap_compose. reflexivity.
Qed.
End CommonNamesMore.

Lemma counts_ignore_file_order_witness :
  name_counts (process_files [statement_a; statement_b]) =
    name_counts (process_files [statement_b; statement_a]) /\
  common_names_list (process_files [statement_a; statement_b]) =
    common_names_list (process_files [statement_b; statement_a]) /\
  Permutation (full_transaction_data (process_files [statement_a; statement_b]))
              (full_transaction_data (process_files [statement_b; statement_a])).
Proof.
  apply (counts_ignore_file_order [statement_a; statement_b] [statement_b; statement_a]).
  apply perm_swap.
Defined.

Lemma row_counts_each_token_once_witness :
  default 0 (name_counts
               (process_row (lit "a.xlsx") (lit "Description") (lit "Amount")
                  empty_acc repeated_handle_row) !! lit "9876543210@ybl") =
  default 0 (name_counts (empty_acc (amount := pynum)) !! lit "9876543210@ybl") +
  (if decide (lit "9876543210@ybl" ∈
                (extract_names_and_upi
                   (cell_str (repeated_handle_row (lit "Description")))).2)
   then 1 else 0).
Proof.
  apply (row_counts_each_token_once (lit "a.xlsx") (lit "Description") (lit "Amount")
           empty_acc repeated_handle_row (lit "9876543210@ybl")); reflexivity.
Defined.

Lemma workbook_sheets_agree_witness :
  exists common_df transaction_df full_transaction_df,
    common_names [statement_imps; statement_neft] =
      Workbook common_df transaction_df full_transaction_df /\
    common_df <> ∅ /\
    forall name,
      let recs := records_of name full_transaction_df in
      match transaction_df !! name with
      | None => recs = [] /\ common_df !! name = None
      | Some s =>
          recs <> [] /\
          total_transactions s = length recs /\
          total_amount s =
            py_sum (filter (fun a => is_int_or_float a = true) (map ft_amount recs)) /\
          common_df !! name =
            if decide (1 < length recs) then Some (length recs) else None
      end.
Proof.
  eexists _, _, _. split; [vm_compute; reflexivity|].
  apply (workbook_sheets_agree [statement_imps; statement_neft]).
  vm_compute. reflexivity.
Defined.

(** ** Finding a name *)

Lemma upper_not_lower (c : ascii) : is_upper c = true -> is_lower c = false.
Proof.
  destruct c as [[] [] [] [] [] [] [] []]; vm_compute; congruence.
Qed.

Lemma upper_is_word (c : ascii) : is_upper c = true -> is_word c = true.
Proof.
  destruct c as [[] [] [] [] [] [] [] []]; vm_compute; congruence.
Qed.

Lemma lower_is_word (c : ascii) : is_lower c = true -> is_word c = true.
Proof.
  destruct c as [[] [] [] [] [] [] [] []]; vm_compute; congruence.
Qed.

Lemma space_not_lower (c : ascii) : is_space c = true -> is_lower c = false.
Proof.
  destruct c as [[] [] [] [] [] [] [] []]; vm_compute; congruence.
Qed.

(** The name pattern matches only where a capital letter is followed by a
    small one. *)
Lemma name_match_starts_capitalised (bef rest bef' rest' : str) (cap : option str) :
  match_at name_pattern bef rest = Some (bef', rest', cap) ->
  exists a x rest0, rest = a :: x :: rest0 /\ is_upper a = true /\ is_lower x = true.
Proof.
  intros E. apply match_at_sound in E as (m & -> & _ & D).
  apply name_pattern_shape in D as (a & xs & sp & b & ys & -> & Ha & Hne & Hxs & _).
  destruct xs as [|x xs]; [contradiction|]. inversion Hxs; subst.
  exists a, x, ((xs ++ sp :: b :: ys) ++ rest'). repeat split; auto.
Qed.

(** At the start of a name that is set off on both sides the pattern
    matches the name. *)
Lemma match_at_name (bef xs ys post : str) (a sp b : ascii) :
  word_ends bef -> is_upper a = true -> xs <> [] -> all is_lower xs ->
  is_space sp = true -> is_upper b = true -> ys <> [] -> all is_lower ys ->
  word_ends post ->
  match_at name_pattern bef ((a :: xs ++ sp :: b :: ys) ++ post) =
  Some (rev (a :: xs ++ sp :: b :: ys) ++ bef, post, None).
Proof.
  intros Hbef Ha Hxne Hxs Hsp Hb Hyne Hys Hpost.
  unfold match_at, name_pattern. cbn [rmatch seqs app].
  assert (Hw0 : word_before bef = false).
  { destruct bef; [reflexivity|exact Hbef]. }
  rewrite Hw0. cbn [word_before]. rewrite (upper_is_word a Ha), Ha. cbn [xorb].
  rewrite <- app_assoc. cbn [app].
  erewrite rep_greedy_run;
    [reflexivity | exact Hxs | | right; now apply space_not_lower |].
  - split; [|exact I]. destruct xs; [contradiction|simpl; lia].
  - cbn beta. rewrite Hsp, Hb.
    erewrite rep_greedy_run; [reflexivity | exact Hys | | right | ].
    + split; [|exact I]. destruct ys; [contradiction|simpl; lia].
    + destruct post as [|c post]; [exact I|].
      destruct (is_lower c) eqn:Hl; [|reflexivity].
      apply lower_is_word in Hl. simpl in Hpost. congruence.
    + assert (Hlast : word_before (rev ys ++ b :: sp :: rev xs ++ a :: bef) = true).
      { destruct (rev ys) as [|y ys'] eqn:Er.
        - apply (f_equal (@length ascii)) in Er. rewrite length_rev in Er.
          destruct ys; [contradiction|discriminate].
        - simpl. apply lower_is_word.
          assert (Hr : all is_lower (rev ys)) by now apply Forall_rev.
          rewrite Er in Hr. now inversion Hr. }
      assert (Hpw : word_before post = false).
      { destruct post; [reflexivity|exact Hpost]. }
      rewrite Hlast, Hpw. cbn [xorb].
      do 3 f_equal. cbn [rev]. rewrite rev_app_distr. cbn [rev].
      rewrite <- !app_assoc. reflexivity.
Qed.

Lemma scan_finds_name (xs ys post : str) (a sp b : ascii) :
  is_upper a = true -> xs <> [] -> all is_lower xs ->
  is_space sp = true -> is_upper b = true -> ys <> [] -> all is_lower ys ->
  word_ends post ->
  forall pre bef,
    no_capitalised_word pre = true -> word_ends (rev pre ++ bef) ->
    In (a :: xs ++ sp :: b :: ys)
       (scan name_pattern bef (pre ++ (a :: xs ++ sp :: b :: ys) ++ post) 0).
Proof.
  intros Ha Hxne Hxs Hsp Hb Hyne Hys Hpost.
  induction pre as [|c pre IH]; intros bef Hpre Hbef.
  - rewrite app_nil_l, scan_0. simpl in Hbef.
    rewrite match_at_name by assumption. left.
    unfold reported. cbn [has_group name_pattern seqs orb]. apply matched_app.
  - rewrite scan_0.
    destruct (match_at name_pattern bef ((c :: pre) ++ (a :: xs ++ sp :: b :: ys) ++ post))
      as [[[bef' rest'] cap]|] eqn:E.
    + exfalso. apply name_match_starts_capitalised in E as (u & x & rest0 & Heq & Hu & Hx).
      destruct pre as [|d pre]; simpl in Heq; inversion Heq; subst.
      * apply upper_not_lower in Ha. congruence.
      * simpl in Hpre. rewrite Hu, Hx in Hpre. discriminate.
    + cbn [app]. apply IH.
      * destruct pre as [|d pre]; [reflexivity|]. simpl in Hpre.
        now apply andb_true_iff in Hpre as [_ Hpre].
      * simpl in Hbef. now rewrite <- app_assoc in Hbef.
Qed.

(** X20. A name of two capitalised words, set off by characters that are no
    word characters, is an identity token of the narration when no
    capitalised word starts before it: capitals alone, as in ["IMPS-"], do
    not take part in a match. *)
Theorem delimited_name_is_identity (pre xs ys post : str) (a sp b : ascii) :
  no_capitalised_word pre = true -> word_ends (rev pre) ->
  is_upper a = true -> xs <> [] -> all is_lower xs ->
  is_space sp = true -> is_upper b = true -> ys <> [] -> all is_lower ys ->
  word_ends post ->
  a :: xs ++ sp :: b :: ys ∈
    (extract_names_and_upi (pre ++ (a :: xs ++ sp :: b :: ys) ++ post)).2.
Proof.
  intros Hpre Hend Ha Hxne Hxs Hsp Hb Hyne Hys Hpost.
  apply identities_elem. right. unfold findall.
  apply scan_finds_name; auto. now rewrite app_nil_r.
Qed.

Lemma delimited_name_is_identity_witness :
  lit "Ramesh Kumar" ∈ (extract_names_and_upi (lit "IMPS-Ramesh Kumar-AB12345678Z")).2.
Proof.
  apply (delimited_name_is_identity (lit "IMPS-") (lit "amesh") (lit "umar")
           (lit "-AB12345678Z") "R" " " "K").
  - reflexivity.
  - reflexivity.
  - reflexivity.
  - discriminate.
  - repeat constructor.
  - reflexivity.
  - reflexivity.
  - discriminate.
  - repeat constructor.
  - reflexivity.
Defined.

(** ** Uploaded files: the searches *)

Lemma text_without_text (P : str -> Prop) (c : str) :
  text_without P (Text c) <-> ~ P c.
Proof.
  split; [intros (c' & [= <-] & Hn); exact Hn|intros Hn; exists c; auto].
Qed.

Lemma text_without_not_text (P : str -> Prop) : ~ text_without P NotText.
Proof. intros (c & E & _). discriminate. Qed.

Lemma first_text_spec (p : str -> bool) (P : str -> Prop)
    (HP : forall c, p c = true <-> P c) (columns : list header_cell) :
  (forall col, first_text p columns = Returned (Some col) <-> finds P columns col) /\
  (first_text p columns = Returned None <-> Forall (text_without P) columns) /\
  (first_text p columns = Raised <-> stops P columns).
Proof.
  induction columns as [|l columns (IHs & IHn & IHr)].
  - simpl. split; [|split].
    + intros col. split; [discriminate|].
      intros (before & after & E & _). destruct before; discriminate.
    + split; [constructor|reflexivity].
    + split; [discriminate|].
      intros (before & after & E & _). destruct before; discriminate.
  - destruct l as [c|]; simpl.
    + destruct (p c) eqn:Ec.
      * assert (Hc : P c) by now apply HP.
        split; [|split].
        -- intros col. split.
           ++ intros [= <-]. exists [], columns. repeat split; auto.
           ++ intros (before & after & E & Hcol & Hb).
              destruct before as [|b before]; simpl in E; inversion E; subst; [reflexivity|].
              apply Forall_cons in Hb as [Hw _]. apply text_without_text in Hw.
              contradiction.
        -- split; [discriminate|].
           intros Hall. apply Forall_cons in Hall as [Hw _].
           apply text_without_text in Hw. contradiction.
        -- split; [discriminate|].
           intros (before & after & E & Hb).
           destruct before as [|b before]; simpl in E; inversion E; subst.
           apply Forall_cons in Hb as [Hw _]. apply text_without_text in Hw.
           contradiction.
      * assert (Hc : ~ P c) by (rewrite <- HP; congruence).
        assert (Hw : text_without P (Text c)) by now apply text_without_text.
        split; [|split].
        -- intros col. rewrite IHs. split.
           ++ intros (before & after & -> & Hcol & Hb).
              exists (Text c :: before), after. repeat split; auto.
           ++ intros (before & after & E & Hcol & Hb).
              destruct before as [|b before]; simpl in E; inversion E; subst; [contradiction|].
              apply Forall_cons in Hb as [_ Hb]. exists before, after. auto.
        -- rewrite IHn, Forall_cons. tauto.
        -- rewrite IHr. split.
           ++ intros (before & after & -> & Hb).
              exists (Text c :: before), after. split; [reflexivity|]. constructor; auto.
           ++ intros (before & after & E & Hb).
              destruct before as [|b before]; simpl in E; inversion E; subst.
              apply Forall_cons in Hb as [_ Hb]. exists before, after. auto.
    + split; [|split].
      * intros col. split; [discriminate|].
        intros (before & after & E & _ & Hb).
        destruct before as [|b before]; simpl in E; inversion E; subst.
        apply Forall_cons in Hb as [Hw _]. now apply text_without_not_text in Hw.
      * split; [discriminate|].
        intros Hall. apply Forall_cons in Hall as [Hw _].
        now apply text_without_not_text in Hw.
      * split; [|reflexivity]. intros _. exists [], columns. split; [reflexivity|constructor].
Qed.

Lemma request_detect_column_scan (columns : list header_cell) (keywords : list str) :
  keywords <> [] ->
  Request.detect_column columns keywords =
  first_text (fun col => existsb (keyword_in col) keywords) columns.
Proof.
  intros Hne. induction columns as [|[c|] columns IH]; simpl.
  - reflexivity.
  - now rewrite IH.
  - destruct keywords; [contradiction|reflexivity].
Qed.

Lemma request_first_column_scan (columns : list header_cell) (names : list str) :
  Request.first_column columns names =
  first_text (fun col => bool_decide (lower col ∈ names)) columns.
Proof.
  induction columns as [|[c|] columns IH]; simpl; [reflexivity| |reflexivity].
  now rewrite IH.
Qed.

(** What [detect_column] does on any header: it returns the first label
    that contains a keyword when all labels before it are strings, nothing
    when all labels are strings without a keyword, and raises when a label
    that is no string comes first. *)
Lemma request_detect_column_spec (columns : list header_cell) (keywords : list str) :
  keywords <> [] ->
  (forall col, Request.detect_column columns keywords = Returned (Some col) <->
     finds (label_matches keywords) columns col) /\
  (Request.detect_column columns keywords = Returned None <->
     Forall (text_without (label_matches keywords)) columns) /\
  (Request.detect_column columns keywords = Raised <->
     stops (label_matches keywords) columns).
Proof.
  intros Hne. rewrite (request_detect_column_scan _ _ Hne).
  apply first_text_spec. intros c. apply existsb_keyword_in.
Qed.

Lemma request_first_column_spec (columns : list header_cell) (names : list str) :
  (forall col, Request.first_column columns names = Returned (Some col) <->
     finds (exact_name names) columns col) /\
  (Request.first_column columns names = Returned None <->
     Forall (text_without (exact_name names)) columns) /\
  (Request.first_column columns names = Raised <->
     stops (exact_name names) columns).
Proof.
  rewrite request_first_column_scan. apply first_text_spec.
  intros c. rewrite bool_decide_eq_true. apply list_elem_of_In.
Qed.

(** On a header of strings the searches are those of the frame as
    loaded. *)
Lemma request_detect_column_texts (cols keywords : list str) :
  Request.detect_column (map Text cols) keywords = Returned (detect_column cols keywords).
Proof.
  induction cols as [|c cols IH]; simpl; [reflexivity|].
  destruct (existsb (keyword_in c) keywords); [reflexivity|exact IH].
Qed.

Lemma request_first_column_returned (columns : list header_cell) (names : list str)
    (col : option str) :
  Request.first_column columns names = Returned col ->
  first_column (texts columns) names = col.
Proof.
  induction columns as [|[c|] columns IH]; simpl.
  - now intros [= <-].
  - destruct (bool_decide (lower c ∈ names)); [now intros [= <-]|exact IH].
  - discriminate.
Qed.

(** The three ends of a search exclude one another. *)
Lemma finds_not_stops (P : str -> Prop) (columns : list header_cell) (col : str) :
  finds P columns col -> ~ stops P columns.
Proof.
  intros (before & after & -> & Hcol & Hb) (before' & after' & E & Hb').
  revert before' E Hb'. induction Hb as [|l before Hl Hb IH]; intros before' E Hb'.
  - destruct before'; simpl in E; inversion E; subst.
    apply Forall_cons in Hb' as [Hw _]. apply text_without_text in Hw. contradiction.
  - destruct before' as [|b before']; simpl in E; inversion E; subst.
    + now apply text_without_not_text in Hl.
    + apply Forall_cons in Hb' as [_ Hb']. eapply IH; eauto.
Qed.

Lemma detected_label_found (columns : list header_cell) (keywords : list str) (col : str) :
  Forall (fun k => k <> []) keywords ->
  finds (label_matches keywords) columns col -> found (Some col) = Some col.
Proof.
  intros Hne (_ & _ & _ & Hm & _).
  apply (label_matches_nonempty _ _ Hne) in Hm. destruct col; [contradiction|reflexivity].
Qed.

Lemma text_without_app (ks ks' : list str) (columns : list header_cell) :
  Forall (text_without (label_matches (ks ++ ks'))) columns <->
  Forall (text_without (label_matches ks)) columns /\
  Forall (text_without (label_matches ks')) columns.
Proof.
  rewrite !Forall_forall. split.
  - intros Hall. split; intros l Hl; destruct (Hall l Hl) as (c & -> & Hn);
      exists c; (split; [reflexivity|]); intros Hm; apply Hn, label_matches_app; auto.
  - intros [H1 H2] l Hl. destruct (H1 l Hl) as (c & -> & Hn1).
    destruct (H2 _ Hl) as (c' & [= <-] & Hn2).
    exists c. split; [reflexivity|]. intros Hm. apply label_matches_app in Hm. tauto.
Qed.

(** Neither of two columns is found. *)
Lemma both_missing (columns : list header_cell) (ks ks' : list str) :
  Forall (fun k => k <> []) ks -> ks <> [] ->
  Forall (fun k => k <> []) ks' -> ks' <> [] ->
  ((exists c d, Request.detect_column columns ks = Returned c /\
                Request.detect_column columns ks' = Returned d /\
                found c = None /\ found d = None) <->
   Forall (text_without (label_matches (ks ++ ks'))) columns).
Proof.
  intros Hk Hne Hk' Hne'.
  destruct (request_detect_column_spec columns ks Hne) as (Hs & Hn & _).
  destruct (request_detect_column_spec columns ks' Hne') as (Hs' & Hn' & _).
  rewrite text_without_app, <- Hn, <- Hn'. split.
  - intros (c & d & Ec & Ed & Fc & Fd).
    destruct c as [c|].
    { apply Hs in Ec. rewrite (detected_label_found _ _ _ Hk Ec) in Fc. discriminate. }
    destruct d as [d|]; [|auto].
    apply Hs' in Ed. rewrite (detected_label_found _ _ _ Hk' Ed) in Fd. discriminate.
  - intros [Ec Ed]. exists None, None. auto.
Qed.

Lemma totals_keywords_nonempty :
  Forall (fun k : list ascii => k <> []) totals_credit_keywords /\
  totals_credit_keywords <> [] /\
  Forall (fun k : list ascii => k <> []) totals_debit_keywords /\
  totals_debit_keywords <> [].
Proof. repeat split; try (repeat constructor; discriminate); discriminate. Qed.

Lemma range_keywords_nonempty :
  Forall (fun k : list ascii => k <> []) range_credit_keywords /\
  range_credit_keywords <> [] /\
  Forall (fun k : list ascii => k <> []) range_debit_keywords /\
  range_debit_keywords <> [].
Proof. repeat split; try (repeat constructor; discriminate); discriminate. Qed.

Section UploadedRangesAndTotals.
Context {amount number : Type} `{PyNumeric amount} `{PandasOps amount (option number)}.

(** X6. A file is turned away for missing columns exactly when it loads and
    all its labels are strings without a keyword; it ends with the error
    message exactly when it does not load or a label that is no string
    comes before a label with a credit keyword or before one with a debit
    keyword.  This holds for the totals and, with its keywords, for the
    range request, which looks at the files only when it has files and a
    bound. *)
Theorem columns_not_found (file : excel_file amount) :
  (Request.totals_file file = Returned None <->
   exists df, excel_sheet file = Some df /\
     Forall (text_without (label_matches (totals_credit_keywords ++ totals_debit_keywords)))
            (header df)) /\
  (Request.totals_file file = Raised <->
   excel_sheet file = None \/
   exists df, excel_sheet file = Some df /\
     (stops (label_matches totals_credit_keywords) (header df) \/
      stops (label_matches totals_debit_keywords) (header df))) /\
  (forall transaction_type greater_than less_than,
     (Request.range_file transaction_type greater_than less_than file =
        Returned RangeColumnsNotFound <->
      exists df, excel_sheet file = Some df /\
        Forall (text_without (label_matches (range_credit_keywords ++ range_debit_keywords)))
               (header df)) /\
     (Request.range_file transaction_type greater_than less_than file = Raised <->
      excel_sheet file = None \/
      exists df, excel_sheet file = Some df /\
        (stops (label_matches range_credit_keywords) (header df) \/
         stops (label_matches range_debit_keywords) (header df)))) /\
  (forall transaction_type greater_than less_than files results,
     Request.range_analysis transaction_type greater_than less_than files = Some results <->
     files <> [] /\ (greater_than <> None \/ less_than <> None) /\
     results = map (Request.range_file transaction_type greater_than less_than) files).
Proof.
  destruct totals_keywords_nonempty as (Tc & Tcn & Td & Tdn).
  destruct range_keywords_nonempty as (Rc & Rcn & Rd & Rdn).
  assert (Hraised : forall (columns : list header_cell) ks ks' (A : Type) (f : option str -> option str -> A),
            ks <> [] -> ks' <> [] ->
            (match Request.detect_column columns ks with
             | Raised => Raised
             | Returned c =>
                 match Request.detect_column columns ks' with
                 | Raised => Raised
                 | Returned d => Returned (f c d)
                 end
             end = Raised <->
             stops (label_matches ks) columns \/ stops (label_matches ks') columns)).
  { intros columns ks ks' A f Hne Hne'.
    destruct (request_detect_column_spec columns ks Hne) as (_ & _ & <-).
    destruct (request_detect_column_spec columns ks' Hne') as (_ & _ & <-).
    destruct (Request.detect_column columns ks);
      destruct (Request.detect_column columns ks'); split; intros E; auto;
      try discriminate; destruct E; discriminate. }
  split; [|split; [|split]].
  - unfold Request.totals_file. destruct (excel_sheet file) as [df|].
    + split.
      * intros E. exists df. split; [reflexivity|].
        apply (both_missing _ _ _ Tc Tcn Td Tdn).
        destruct (Request.detect_column (header df) totals_credit_keywords) as [c|];
          [|discriminate].
        destruct (Request.detect_column (header df) totals_debit_keywords) as [d|];
          [|discriminate].
        exists c, d. destruct (found c), (found d); try discriminate; auto.
      * intros (df' & [= <-] & Hall).
        apply (both_missing _ _ _ Tc Tcn Td Tdn) in Hall
          as (c & d & -> & -> & -> & ->). reflexivity.
    + split; [discriminate|]. intros (df & E & _). discriminate.
  - unfold Request.totals_file. destruct (excel_sheet file) as [df|].
    + rewrite (Hraised _ _ _ _ _ Tcn Tdn). split.
      * intros E. right. exists df. auto.
      * intros [E|(df' & [= <-] & E)]; [discriminate|exact E].
    + split; [auto|reflexivity].
  - intros transaction_type greater_than less_than.
    unfold Request.range_file. destruct (excel_sheet file) as [df|].
    + split.
      * split.
        -- intros E. exists df. split; [reflexivity|].
           apply (both_missing _ _ _ Rc Rcn Rd Rdn).
           destruct (Request.detect_column (header df) range_credit_keywords) as [c|];
             [|discriminate].
           destruct (Request.detect_column (header df) range_debit_keywords) as [d|];
             [|discriminate].
           exists c, d.
           destruct (found c), (found d); auto;
             destruct (range_filter _ _ _ _ _ _); discriminate.
        -- intros (df' & [= <-] & Hall).
           apply (both_missing _ _ _ Rc Rcn Rd Rdn) in Hall
             as (c & d & -> & -> & -> & ->). reflexivity.
      * rewrite (Hraised _ _ _ _ _ Rcn Rdn). split.
        -- intros E. right. exists df. auto.
        -- intros [E|(df' & [= <-] & E)]; [discriminate|exact E].
    + split; split; try discriminate; auto.
      intros (df & E & _). discriminate.
  - intros transaction_type greater_than less_than files results.
    unfold Request.range_analysis.
    destruct files as [|file' files]; [split; [discriminate|intros [F _]; contradiction]|].
    destruct greater_than, less_than; split;
      try (intros [= <-]; repeat split; auto; discriminate);
      try (intros (_ & _ & ->); reflexivity);
      try discriminate.
    intros (_ & [F|F] & _); contradiction.
Qed.
End UploadedRangesAndTotals.

(** ** Uploaded files: the frequency request *)

Lemma frequency_keywords_nonempty :
  Forall (fun k : list ascii => k <> []) frequency_description_keywords /\
  frequency_description_keywords <> [] /\
  frequency_credit_keywords <> [] /\
  frequency_debit_keywords <> [] /\
  frequency_amount_keywords <> [].
Proof. repeat split; try (repeat constructor; discriminate); discriminate. Qed.

Section UploadedFrequency.
Context {amount : Type}.

(** The files from which the frequency request takes rows. *)
Lemma frequency_file_rows (file : excel_file amount) :
  (exists rows, Request.frequency_file file = FrequencyRows rows) <-> gives_rows file.
Proof.
  destruct frequency_keywords_nonempty as (Hk & Hdn & Hcn & Hbn & Han).
  unfold Request.frequency_file, gives_rows.
  destruct (decide (excel_name file = [])) as [En|En].
  { rewrite bool_decide_eq_true_2 by exact En.
    split; [intros (rows & E); discriminate|intros [Hne _]; contradiction]. }
  rewrite bool_decide_eq_false_2 by exact En.
  destruct (excel_sheet file) as [df|].
  2: { split; [intros (rows & E); discriminate|intros (_ & df & E & _); discriminate]. }
  destruct (request_detect_column_spec (header df) _ Hdn) as (Ds & Dn & Dr).
  destruct (request_detect_column_spec (header df) _ Hcn) as (_ & _ & Cr).
  destruct (request_detect_column_spec (header df) _ Hbn) as (_ & _ & Br).
  destruct (request_detect_column_spec (header df) _ Han) as (_ & _ & Ar).
  split.
  - intros (rows & E). split; [exact En|]. exists df. split; [reflexivity|].
    destruct (Request.detect_column (header df) frequency_description_keywords)
      as [[desc_col|]|]; try discriminate.
    split; [exists desc_col; now apply Ds|].
    destruct (found (Some desc_col)); [|discriminate].
    rewrite <- Cr, <- Br, <- Ar.
    destruct (Request.detect_column (header df) frequency_credit_keywords),
             (Request.detect_column (header df) frequency_debit_keywords),
             (Request.detect_column (header df) frequency_amount_keywords);
      try discriminate; repeat split; discriminate.
  - intros (_ & df' & [= <-] & (desc_col & Hd) & Hc & Hb & Ha).
    rewrite (proj2 (Ds desc_col) Hd), (detected_label_found _ _ _ Hk Hd).
    rewrite <- Cr in Hc. rewrite <- Br in Hb. rewrite <- Ar in Ha.
    destruct (Request.detect_column (header df) frequency_credit_keywords),
             (Request.detect_column (header df) frequency_debit_keywords),
             (Request.detect_column (header df) frequency_amount_keywords);
      try contradiction; eauto.
Qed.

Lemma uploaded_names_empty (files : list (excel_file amount)) :
  forallb (fun file => bool_decide (excel_name file = [])) files = true <->
  forall file, In file files -> excel_name file = [].
Proof.
  rewrite forallb_forall. split; intros Hall file Hin.
  - apply (bool_decide_eq_true_1 _ (Hall file Hin)).
  - apply bool_decide_eq_true_2. now apply Hall.
Qed.

Lemma uploaded_some_name (files : list (excel_file amount)) :
  forallb (fun file => bool_decide (excel_name file = [])) files = false ->
  exists file, In file files /\ excel_name file <> [].
Proof.
  induction files as [|file files IH]; simpl; [discriminate|].
  destruct (decide (excel_name file = [])) as [E|E].
  - rewrite bool_decide_eq_true_2 by exact E. simpl. intros Hf.
    destruct (IH Hf) as (f & Hin & Hne). exists f. auto.
  - intros _. exists file. auto.
Qed.

Lemma combined_data_nil (files : list (excel_file amount)) :
  Request.combined_data files = [] <->
  forall file, In file files -> ~ gives_rows file.
Proof.
  unfold Request.combined_data. split.
  - intros E file Hin Hg. apply frequency_file_rows in Hg as (rows & Er).
    assert (Hf : rows ∈ omap (fun file =>
                               match Request.frequency_file file with
                               | FrequencyRows rows => Some rows
                               | _ => None
                               end) files).
    { apply list_elem_of_omap. exists file. split; [now apply list_elem_of_In|].
      now rewrite Er. }
    rewrite E in Hf. inversion Hf.
  - intros Hall.
    destruct (omap _ files) as [|rows l] eqn:E; [reflexivity|].
    assert (Hf : rows ∈ omap (fun file =>
                               match Request.frequency_file file with
                               | FrequencyRows rows => Some rows
                               | _ => None
                               end) files) by (rewrite E; left).
    apply list_elem_of_omap in Hf as (file & Hin & Ef).
    exfalso. apply (Hall file); [now apply list_elem_of_In|].
    apply frequency_file_rows.
    destruct (Request.frequency_file file) as [| | |rows']; try discriminate. eauto.
Qed.

Lemma combined_data_some (files : list (excel_file amount)) :
  Request.combined_data files <> [] ->
  exists file, In file files /\ gives_rows file.
Proof.
  unfold Request.combined_data. intros Hne.
  destruct (omap _ files) as [|rows l] eqn:E; [contradiction|].
  assert (Hf : rows ∈ omap (fun file =>
                             match Request.frequency_file file with
                             | FrequencyRows rows => Some rows
                             | _ => None
                             end) files) by (rewrite E; left).
  apply list_elem_of_omap in Hf as (file & Hin & Ef).
  exists file. split; [now apply list_elem_of_In|].
  apply frequency_file_rows.
  destruct (Request.frequency_file file) as [| | |rows']; try discriminate. eauto.
Qed.

Lemma empty_name_gives_no_rows (file : excel_file amount) :
  excel_name file = [] -> ~ gives_rows file.
Proof. intros E [Hne _]. contradiction. Qed.

(** X14. The four ends of the frequency request.  It asks for files when
    every file has an empty name; it reports no valid data when some file
    has a name and no file gives rows; it reports no common keys when a
    file gives rows and no key is counted twice, even if no row has a key;
    otherwise it writes the common rows.  A file gives rows exactly when it
    has a name, loads, has a description column before any label that is no
    string, and has no such label before a credit, a debit or an amount
    label; every other file is skipped. *)
Theorem frequency_outcomes (files : list (excel_file amount)) :
  let combined := concat (Request.combined_data files) in
  (forall file : excel_file amount,
     (exists rows, Request.frequency_file file = FrequencyRows rows) <-> gives_rows file) /\
  (Request.frequency_analysis files = FrequencyNoFiles <->
   forall file, In file files -> excel_name file = []) /\
  (Request.frequency_analysis files = FrequencyNoValidData <->
   (exists file, In file files /\ excel_name file <> []) /\
   forall file, In file files -> ~ gives_rows file) /\
  (Request.frequency_analysis files = FrequencyNoCommonKeys <->
   (exists file, In file files /\ gives_rows file) /\
   forall key, frequency_count combined key <= 1) /\
  ((exists single data,
      Request.frequency_analysis files = FrequencyCommonKeys single data) <->
   exists key, 2 <= frequency_count combined key).
Proof.
  intros combined. split; [exact frequency_file_rows|].
  pose proof (uploaded_names_empty files) as Hnames.
  pose proof (combined_data_nil files) as Hskipped.
  unfold Request.frequency_analysis. fold combined.
  destruct (forallb (fun file => bool_decide (excel_name file = [])) files) eqn:Ef.
  - (* every name is empty *)
    assert (Hall : forall file, In file files -> excel_name file = []) by now apply Hnames.
    assert (Hnone : Request.combined_data files = []).
    { apply Hskipped. intros file Hin. apply empty_name_gives_no_rows. auto. }
    assert (Hzero : forall key, frequency_count combined key = 0).
    { intros key. unfold combined. rewrite Hnone. reflexivity. }
    split; [tauto|]. split; [|split].
    + split; [discriminate|]. intros [(file & Hin & Hne) _]. exfalso. auto.
    + split; [discriminate|]. intros [(file & Hin & Hg) _]. exfalso.
      apply (empty_name_gives_no_rows file); auto.
    + split; [intros (single & data & E); discriminate|].
      intros (key & Hkey). rewrite Hzero in Hkey. lia.
  - pose proof (uploaded_some_name files Ef) as Hsome.
    assert (Hnot : ~ forall file, In file files -> excel_name file = []).
    { intros Hall. apply Hnames in Hall. congruence. }
    destruct (Request.combined_data files) as [|frame frames] eqn:Eo.
    + (* no file gives rows *)
      assert (Hzero : forall key, frequency_count combined key = 0).
      { intros key. unfold combined. reflexivity. }
      assert (Hnone : forall file, In file files -> ~ gives_rows file)
        by now apply Hskipped.
      split; [split; [discriminate|contradiction]|]. split; [tauto|]. split.
      * split; [discriminate|]. intros [(file & Hin & Hg) _]. exfalso.
        apply (Hnone file); auto.
      * split; [intros (single & data & E); discriminate|].
        intros (key & Hkey). rewrite Hzero in Hkey. lia.
    + fold combined.
      assert (Hread : exists file, In file files /\ gives_rows file).
      { apply combined_data_some. rewrite Eo. discriminate. }
      assert (Hnotnone : ~ forall file, In file files -> ~ gives_rows file).
      { intros Hall. destruct Hread as (file & Hin & Hg). apply (Hall file); auto. }
      split; [split; [|contradiction]|].
      { destruct (common_keys combined) as [|? [|? ?]]; discriminate. }
      split; [split; [|tauto]|].
      { destruct (common_keys combined) as [|? [|? ?]]; discriminate. }
      destruct (common_keys combined) as [|k keys] eqn:Ek.
      * (* no key is counted twice *)
        pose proof (proj1 (common_keys_nil combined) Ek) as Hle.
        split; [tauto|].
        split; [intros (single & data & E); discriminate|].
        intros (key & Hkey). specialize (Hle key). lia.
      * assert (Hkey : exists key, 2 <= frequency_count combined key).
        { destruct (not_counted_twice combined) as [Hle|Hkey]; [|exact Hkey].
          apply common_keys_nil in Hle. congruence. }
        split.
        -- split; [destruct keys; discriminate|].
           intros [_ Hle]. destruct Hkey as (key & Hkey). specialize (Hle key). lia.
        -- split; [intros _; exact Hkey|]. intros _. destruct keys; eauto.
Qed.
End UploadedFrequency.

(** ** Uploaded files: the common-names request *)

Section UploadedCommonNames.
Context {amount : Type} `{PyNumeric amount}.

Lemma request_process_file_raised (st : acc amount) (file : excel_file amount) :
  Request.process_file st file = Raised <-> aborts file.
Proof.
  unfold Request.process_file, aborts.
  destruct (excel_sheet file) as [df|]; [|split; auto].
  destruct (request_first_column_spec (header df) description_columns) as (Ds & Dn & Dr).
  destruct (request_first_column_spec (header df) amount_columns) as (As & An & Ar).
  split.
  - intros E. right. exists df. split; [reflexivity|].
    destruct (Request.first_column (header df) description_columns) as [[d|]|].
    + right. split; [exists d; apply Ds; reflexivity|]. apply Ar.
      destruct (Request.first_column (header df) amount_columns) as [[a|]|];
        [discriminate|discriminate|reflexivity].
    + discriminate.
    + left. apply Dr. reflexivity.
  - intros [E|(df' & [= <-] & [E|[(d & Hd) E]])]; [discriminate| |].
    + apply Dr in E. now rewrite E.
    + apply Ds in Hd. apply Ar in E. now rewrite Hd, E.
Qed.

Lemma request_process_file_returned (st : acc amount) (file : excel_file amount) :
  ~ aborts file ->
  exists u, as_upload file = Some u /\
    Request.process_file st file = Returned (process_file st u).
Proof.
  intros Hok. rewrite <- (request_process_file_raised st) in Hok.
  unfold Request.process_file, as_upload, process_file in *.
  destruct (excel_sheet file) as [table|]; [|contradiction].
  eexists. split; [reflexivity|]. cbn [df columns rows filename].
  destruct (Request.first_column (header table) description_columns) as [d|] eqn:Ed;
    [|contradiction].
  rewrite (request_first_column_returned _ _ _ Ed).
  destruct d as [d|]; [|reflexivity].
  destruct (Request.first_column (header table) amount_columns) as [a|] eqn:Ea;
    [|contradiction].
  rewrite (request_first_column_returned _ _ _ Ea).
  destruct a; reflexivity.
Qed.

Lemma request_process_files_raised (files : list (excel_file amount)) :
  forall st : acc amount,
    Request.process_files st files = Raised <-> exists file, In file files /\ aborts file.
Proof.
  induction files as [|file files IH]; intros st; simpl.
  - split; [discriminate|intros (file & [] & _)].
  - destruct (Request.process_file st file) as [st'|] eqn:E.
    + assert (Hok : ~ aborts file).
      { rewrite <- (request_process_file_raised st), E. discriminate. }
      rewrite IH. split.
      * intros (f & Hin & Hf). exists f. auto.
      * intros (f & [<-|Hin] & Hf); [contradiction|]. exists f. auto.
    + split; [|reflexivity]. intros _. exists file. split; [auto|].
      now apply (request_process_file_raised st).
Qed.

Lemma request_process_files_returned (files : list (excel_file amount)) :
  (forall file, In file files -> ~ aborts file) ->
  forall st : acc amount,
    Request.process_files st files =
    Returned (fold_left process_file (omap as_upload files) st).
Proof.
  induction files as [|file files IH]; intros Hok st; simpl; [reflexivity|].
  destruct (request_process_file_returned st file) as (u & Eu & ->);
    [apply Hok; simpl; auto|].
  rewrite Eu. simpl. apply IH. intros f Hin. apply Hok. simpl. auto.
Qed.

(** X17. One bad file discards the whole common-names request.  The
    request ends with the error message, without a workbook, exactly when
    some file does not load or has a label that is no string before the
    column searched for, whatever the other files hold; otherwise it gives
    the result of the frames as loaded, labels that are no string being
    passed over. *)
Theorem bad_file_discards_request (files : list (excel_file amount)) :
  (Request.common_names files = Raised <-> exists file, In file files /\ aborts file) /\
  ((forall file, In file files -> ~ aborts file) ->
   length (omap as_upload files) = length files /\
   Request.common_names files = Returned (common_names (omap as_upload files))).
Proof.
  split.
  - unfold Request.common_names. destruct files as [|file files].
    + split; [discriminate|intros (file & [] & _)].
    + rewrite <- (request_process_files_raised (file :: files) empty_acc).
      destruct (Request.process_files empty_acc (file :: files)); split; auto; discriminate.
  - intros Hok. split.
    + induction files as [|file files IH]; simpl; [reflexivity|].
      destruct (request_process_file_returned empty_acc file) as (u & -> & _);
        [apply Hok; simpl; auto|].
      simpl. f_equal. apply IH. intros f Hin. apply Hok. simpl. auto.
    + unfold Request.common_names. destruct files as [|file files]; [reflexivity|].
      rewrite (request_process_files_returned _ Hok).
      destruct (request_process_file_returned empty_acc file) as (u & Eu & _);
        [apply Hok; simpl; auto|].
      simpl. rewrite Eu. reflexivity.
Qed.
End UploadedCommonNames.

(** ** Uploaded files: frames as loaded *)

Lemma texts_text (cols : list str) : texts (map Text cols) = cols.
Proof.
  induction cols as [|c cols IH]; [reflexivity|].
  unfold texts in *. cbn [map omap list_omap]. now rewrite IH.
Qed.

Lemma as_upload_loaded {amount : Type} (file : upload amount) :
  as_upload (loaded file) = Some file.
Proof.
  unfold as_upload, loaded. cbn [excel_sheet excel_name header body].
  rewrite texts_text. destruct file as [name [cols table]]. reflexivity.
Qed.

Lemma not_stops_texts (P : str -> Prop) (cols : list str) : ~ stops P (map Text cols).
Proof.
  intros (before & after & E & _). revert before E.
  induction cols as [|c cols IH]; intros before E.
  - destruct before; discriminate.
  - destruct before as [|b before]; simpl in E; [discriminate|].
    inversion E. eauto.
Qed.

(** On files that load with a header of strings the requests are those of
    the frames as loaded. *)
Lemma request_frequency_file_loaded {amount : Type} (file : upload amount) :
  match Request.frequency_file (loaded file) with
  | FrequencyRows rows => Some rows
  | _ => None
  end = frequency_file file.
Proof.
  unfold Request.frequency_file, frequency_file, loaded.
  cbn [excel_sheet excel_name header body].
  destruct (bool_decide (filename file = [])); [reflexivity|].
  rewrite !request_detect_column_texts.
  destruct (found (detect_column (columns (df file)) frequency_description_keywords));
    reflexivity.
Qed.

Lemma request_frequency_analysis_loaded {amount : Type} (files : list (upload amount)) :
  Request.frequency_analysis (map loaded files) = frequency_analysis files.
Proof.
  unfold Request.frequency_analysis, frequency_analysis, Request.combined_data.
  assert (En : forallb (fun file : excel_file amount => bool_decide (excel_name file = []))
                 (map loaded files) =
               forallb (fun file => bool_decide (filename file = [])) files).
  { induction files as [|file files IH]; simpl; [reflexivity|]. now rewrite IH. }
  rewrite En.
  assert (Eo : omap (fun file : excel_file amount =>
                       match Request.frequency_file file with
                       | FrequencyRows rows => Some rows
                       | _ => None
                       end) (map loaded files) = omap frequency_file files).
  { clear En. induction files as [|file files IH]; [reflexivity|].
    cbn [map omap list_omap]. rewrite request_frequency_file_loaded.
    destruct (frequency_file file); now rewrite IH. }
  now rewrite Eo.
Qed.

Section LoadedRangesAndTotals.
Context {amount number : Type} `{PyNumeric amount} `{PandasOps amount (option number)}.

Lemma request_range_file_loaded transaction_type greater_than less_than
    (file : upload amount) :
  Request.range_file transaction_type greater_than less_than (loaded file) =
  Returned (range_file transaction_type greater_than less_than file).
Proof.
  unfold Request.range_file, range_file, loaded. cbn [excel_sheet header body].
  rewrite !request_detect_column_texts.
  destruct (found (detect_column (columns (df file)) range_credit_keywords)),
           (found (detect_column (columns (df file)) range_debit_keywords)); reflexivity.
Qed.

Lemma request_totals_file_loaded (file : upload amount) :
  Request.totals_file (loaded file) = Returned (totals_file file).
Proof.
  unfold Request.totals_file, totals_file, loaded. cbn [excel_sheet header body].
  rewrite !request_detect_column_texts.
  destruct (found (detect_column (columns (df file)) totals_credit_keywords)),
           (found (detect_column (columns (df file)) totals_debit_keywords)); reflexivity.
Qed.
End LoadedRangesAndTotals.

(** A label that is no string: the frequency request and the totals end
    with the error for the file, and the common-names request raises. *)
Example label_without_lower :
  Request.frequency_file statement_with_year = FrequencyError /\
  Request.totals_file statement_with_year = Raised /\
  Request.common_names [loaded statement_imps; statement_with_date] = Raised.
Proof. repeat split; vm_compute; reflexivity. Qed.

Lemma bad_file_discards_request_witness :
  Request.common_names [loaded statement_imps; loaded statement_neft; statement_with_date] =
  Raised.
Proof.
  apply (proj1 (bad_file_discards_request
                  [loaded statement_imps; loaded statement_neft; statement_with_date])).
  exists statement_with_date. split; [simpl; auto|].
  right. eexists. split; [reflexivity|]. left.
  exists [], [Text (lit "Description"); Text (lit "Amount")].
  split; [reflexivity|constructor].
Defined.

